(** * DeepChem tutorial notebooks: the Pong environment, the Pong policy and
      the play loop

    The development embeds the Python of the notebook
    [Using_Reinforcement_Learning_to_Play_Pong.ipynb]: the class [PongEnv]
    (its [__init__], its [state] property and [__deepcopy__]), the class
    [PongPolicy] and the demonstration play loop.  The other notebook, on
    molecular fingerprints, only calls the library and prints what it
    returns; nothing of it is embedded.

    NumPy arrays are records of a shape, an element type and the elements in
    row-major order; Python exceptions are the [Raise] results of an error
    monad. *)

From Stdlib Require Import ZArith Lia.
From stdpp Require Import base tactics option list list_numbers strings.

Local Open Scope Z_scope.

(** ** Exceptions and the error monad *)

Inductive exn : Type :=
| IndexError   (* too many indices for array, mask of another shape *)
| AxisError    (* axis out of bounds for the array's dimension *)
| ValueError.  (* slice step cannot be zero *)

Inductive result (A : Type) : Type :=
| Ok (a : A)
| Raise (e : exn).
Arguments Ok {A} a.
Arguments Raise {A} e.

#[global] Instance result_ret : MRet result := λ A a, Ok a.
#[global] Instance result_bind : MBind result := λ A B f r,
  match r with Ok a => f a | Raise e => Raise e end.
#[global] Instance result_fmap : FMap result := λ A B f r,
  match r with Ok a => Ok (f a) | Raise e => Raise e end.

(** A read that is out of range raises [IndexError]. *)
Definition checked {A} (o : option A) : result A :=
  match o with Some a => Ok a | None => Raise IndexError end.

(** ** NumPy arrays *)

Inductive dtype : Type := uint8 | uint64 | int64 | float64 | bool_.

(** [data] holds the elements in C (row-major) order.  Elements are integers:
    a [bool_] array holds 0 for [False] and 1 for [True], and a [float64]
    array stands for the floats of these integer values.  The program builds
    one [float64] array, of 0.0 and 1.0.  Arithmetic on [float64] elements
    is exact here and rounded in NumPy, so what is proved about the values
    of a sum is proved for integer element types only. *)
Record ndarray : Type := NDArray {
  shape : list nat;
  dtype_of : dtype;
  data : list Z
}.

(** Number of elements of an array of shape [sh] (numpy's [prod(shape)]). *)
Definition size_of (sh : list nat) : nat := foldr Nat.mul 1%nat sh.

Definition ndim (a : ndarray) : nat := length (shape a).

Definition well_formed (a : ndarray) : Prop :=
  length (data a) = size_of (shape a).

Definition in_range (t : dtype) (v : Z) : Prop :=
  match t with
  | uint8 => 0 ≤ v < 256
  | uint64 => 0 ≤ v < 2 ^ 64
  | int64 => - 2 ^ 63 ≤ v < 2 ^ 63
  | float64 => True
  | bool_ => v = 0 ∨ v = 1
  end.

Definition well_typed (a : ndarray) : Prop :=
  Forall (in_range (dtype_of a)) (data a).

(** Row-major offset of a multi-index; [None] when the index has the wrong
    number of coordinates or a coordinate is out of range. *)
Fixpoint ravel (sh : list nat) (idx : list nat) : option nat :=
  match sh, idx with
  | [], [] => Some 0%nat
  | n :: sh', i :: idx' =>
      if decide (i < n)%nat
      then (λ off, i * size_of sh' + off)%nat <$> ravel sh' idx'
      else None
  | _, _ => None
  end.

(** [a[i, j, ...]] for a full integer index. *)
Definition item (a : ndarray) (idx : list nat) : option Z :=
  off ← ravel (shape a) idx; data a !! off.

(** The [n] blocks an array of shape [n :: sh'] consists of along axis 0. *)
Definition blocks (n : nat) (sh' : list nat) (d : list Z) : list (list Z) :=
  reshape (replicate n (size_of sh')) d.

(** ** Python slices *)

Record slice : Type := Slice {
  slice_start : option Z;
  slice_stop : option Z;
  slice_step : option Z
}.

(** [:] *)
Definition full_slice : slice := Slice None None None.

(** Clamping of one slice bound against the axis length, as Python's
    [slice.indices] does it. *)
Definition adjust_bound (len step v : Z) : Z :=
  if v <? 0 then
    let v' := v + len in
    if v' <? 0 then (if step <? 0 then -1 else 0) else v'
  else if len <=? v then (if step <? 0 then len - 1 else len)
  else v.

(** The bounds and the step a slice resolves to on an axis of length [len]. *)
Definition slice_bounds (s : slice) (len : Z) : Z * Z * Z :=
  let st := default 1 (slice_step s) in
  let lo := match slice_start s with
            | Some v => adjust_bound len st v
            | None => if st <? 0 then len - 1 else 0
            end in
  let hi := match slice_stop s with
            | Some v => adjust_bound len st v
            | None => if st <? 0 then -1 else len
            end in
  (lo, hi, st).

Definition slice_count (lo hi st : Z) : Z :=
  if st <? 0 then (if hi <? lo then Z.quot (lo - hi - 1) (- st) + 1 else 0)
  else (if lo <? hi then Z.quot (hi - lo - 1) st + 1 else 0).

(** The positions a slice selects on an axis of length [len], in order. *)
Definition slice_indices (s : slice) (len : nat) : result (list nat) :=
  let '(lo, hi, st) := slice_bounds s (Z.of_nat len) in
  if decide (st = 0) then Raise ValueError
  else Ok ((λ k : nat, Z.to_nat (lo + Z.of_nat k * st))
             <$> seq 0 (Z.to_nat (slice_count lo hi st))).

(** ** Basic indexing with a tuple of slices *)

Fixpoint getitem_shape (key : list slice) (sh : list nat)
  : result (list nat) :=
  match key, sh with
  | [], _ => Ok sh
  | _ :: _, [] => Raise IndexError
  | s :: key', n :: sh' =>
      idx ← slice_indices s n;
      sh'' ← getitem_shape key' sh';
      Ok (length idx :: sh'')
  end.

(** The elements [a[key]] selects.  The blocks of axis 0 are read at the
    positions the first slice resolves to, through [checked]: a position
    outside the axis would raise.  NumPy clamps the bounds of a slice so that
    this cannot happen; here it is a lemma, [slice_indices_bounded]. *)
Fixpoint getitem_data (key : list slice) (sh : list nat) (d : list Z)
  : result (list Z) :=
  match key, sh with
  | [], _ => Ok d
  | _ :: _, [] => Raise IndexError
  | s :: key', n :: sh' =>
      idx ← slice_indices s n;
      picked ← mapM (λ i, checked (blocks n sh' d !! i)) idx;
      mjoin <$> mapM (getitem_data key' sh') picked
  end.

(** [a[key]] where [key] is a tuple of slices. *)
Definition getitem (key : list slice) (a : ndarray) : result ndarray :=
  sh ← getitem_shape key (shape a);
  d ← getitem_data key (shape a) (data a);
  Ok (NDArray sh (dtype_of a) d).

(** ** [np.sum(a, axis=...)] *)

Definition wrap64 (v : Z) : Z := v `mod` 2 ^ 64.

(** Wrap-around of a signed 64-bit integer. *)
Definition wrap64s (v : Z) : Z := (v + 2 ^ 63) `mod` 2 ^ 64 - 2 ^ 63.

(** The sums along [axis].  An axis the array does not have raises, also
    when the array is empty. *)
Fixpoint sum_axis (axis : nat) (sh : list nat) (d : list Z)
  : result (list Z) :=
  match sh with
  | [] => Raise AxisError
  | n :: sh' =>
      match axis with
      | O => Ok (foldr (zip_with Z.add) (replicate (size_of sh') 0)
                   (blocks n sh' d))
      | S axis' =>
          if decide (axis' < length sh')%nat
          then mjoin <$> mapM (sum_axis axis' sh') (blocks n sh' d)
          else Raise AxisError
      end
  end.

(** The element type of a sum: unsigned integers are accumulated in the
    platform's unsigned 64-bit integer, booleans and signed integers in its
    signed 64-bit integer. *)
Definition sum_dtype (t : dtype) : dtype :=
  match t with
  | uint8 | uint64 => uint64
  | bool_ | int64 => int64
  | float64 => float64
  end.

Definition sum_wrap (t : dtype) (v : Z) : Z :=
  match t with
  | uint64 => wrap64 v
  | int64 => wrap64s v
  | _ => v
  end.

Definition np_sum (a : ndarray) (axis : nat) : result ndarray :=
  d ← sum_axis axis (shape a) (data a);
  Ok (NDArray (delete axis (shape a)) (sum_dtype (dtype_of a))
        (sum_wrap (sum_dtype (dtype_of a)) <$> d)).

(** ** [np.zeros], comparison with a scalar, boolean-mask assignment *)

Definition np_zeros (sh : list nat) : ndarray :=
  NDArray sh float64 (replicate (size_of sh) 0).

(** [a != c] *)
Definition ne_scalar (a : ndarray) (c : Z) : ndarray :=
  NDArray (shape a) bool_ ((λ v, if decide (v = c) then 0 else 1) <$> data a).

(** [a[mask] = v] for a boolean [mask].  The mask covers the leading axes
    of [a]: each of its elements stands for one block of [a], a single
    element when the shapes are equal, and the blocks of the elements that
    are set are filled with [v].  A mask whose shape does not start the
    shape of [a] raises. *)
Definition setitem_mask (a mask : ndarray) (v : Z) : result ndarray :=
  if decide (shape mask `prefix_of` shape a) then
    let rest := drop (length (shape mask)) (shape a) in
    Ok (NDArray (shape a) (dtype_of a)
          (mjoin (zip_with
                    (λ m blk,
                       if decide (m = 0) then blk
                       else replicate (length blk) v)
                    (data mask)
                    (blocks (size_of (shape mask)) rest (data a)))))
  else Raise IndexError.

(** [np.array(x)] of something that already is an array copies it. *)
Definition np_array (a : ndarray) : ndarray := a.

(** ** The class [PongEnv] *)

(** [34:194] *)
Definition play_area : slice := Slice (Some 34) (Some 194) None.
(** [0:-1:2] *)
Definition every_other : slice := Slice (Some 0) (Some (-1)) (Some 2).

(** The last two statements of [PongEnv.state], on their own. *)
Definition black_and_white (grayscale : ndarray) : result ndarray :=
  let bw := np_zeros (shape grayscale) in
  setitem_mask bw (ne_scalar grayscale 233) 1.

Module PongEnv.

(** The attributes of a [PongEnv] object that the notebook reads or
    writes.  [env] is the wrapped Gym environment, of a type [Gym] the
    notebook does not look into. *)
Record t {Gym : Type} : Type := Build {
  env : Gym;
  _state : ndarray;
  _terminated : bool;
  _state_shape : list nat;
  n_actions : nat
}.
Arguments t : clear implicits.
Arguments Build {Gym}.

(** The methods [PongEnv] inherits from [dc.rl.GymEnvironment], and the
    [render] method of the wrapped Gym environment.  Their code is the
    library's, so they are operations of an interface here.  [World]
    stands for whatever creating a Gym environment reads or changes
    outside the object (the emulator, the seeds).  The operations are
    functions: they describe the calls that return, and a call into the
    library that raises is outside what is modelled. *)
Class GymEnvironment (Gym World : Type) : Type := {
  super_init : string → World → t Gym * World;
  reset : t Gym → t Gym;
  step : t Gym → nat → t Gym;
  render : Gym → Gym
}.

Definition set_state_shape {Gym} (sh : list nat) (self : t Gym) : t Gym :=
  Build (env self) (_state self) (_terminated self) sh (n_actions self).

Definition set_env {Gym} (g : Gym) (self : t Gym) : t Gym :=
  Build g (_state self) (_terminated self) (_state_shape self)
    (n_actions self).

Definition __init__ `{GymEnvironment Gym World} (w : World)
  : t Gym * World :=
  let '(self, w') := super_init "Pong-v0" w in
  (set_state_shape [80; 80]%nat self, w').

Definition state {Gym} (self : t Gym) : result ndarray :=
  cropped ← getitem [play_area; full_slice; full_slice]
              (np_array (_state self));
  reduced ← getitem [every_other; every_other] cropped;
  grayscale ← np_sum reduced 2;
  let bw := np_zeros (shape grayscale) in
  setitem_mask bw (ne_scalar grayscale 233) 1.

Definition __deepcopy__ `{GymEnvironment Gym World} {Memo : Type}
    (self : t Gym) (memo : Memo) (w : World) : t Gym * World :=
  __init__ w.

(** [env.terminated] *)
Definition terminated {Gym} (self : t Gym) : bool := _terminated self.

End PongEnv.

(** The transform as the specification words it: crop to the play area, keep
    every second row and column, combine the colour channels, and nothing
    else.  It is compared with [PongEnv.state] below. *)
Definition cropped_grayscale {Gym} (self : PongEnv.t Gym) : result ndarray :=
  cropped ← getitem [play_area; full_slice; full_slice]
              (np_array (PongEnv._state self));
  reduced ← getitem [every_other; every_other] cropped;
  np_sum reduced 2.

(** The specification's reading of the transform: the returned array is the
    array of channel sums. *)
Definition returns_grayscale {Gym} (self : PongEnv.t Gym) : Prop :=
  ∃ g bw, cropped_grayscale self = Ok g ∧ PongEnv.state self = Ok bw ∧
          shape bw = shape g ∧ data bw = data g.

(** ** The demonstration play loop *)

(** The trained [dc.rl.A2C] object.  [select_action] is the library's; it
    may update the agent (the saved recurrent state, the random stream).
    As for the environment, only calls that return are described. *)
Class A2C (Agent : Type) : Type := {
  select_action : Agent → ndarray → nat * Agent
}.

(** The calls the loop makes on the environment, each with the [PongEnv]
    object as it is when the call is made. *)
Inductive event {Gym : Type} : Type :=
| EvReset
| EvRender (self : PongEnv.t Gym)
| EvStep (self : PongEnv.t Gym) (action : nat).
Arguments event : clear implicits.

(** How a run of the loop ends: the condition became false, [env.state]
    raised, or the run was cut off after [fuel] iterations.  The calls into
    the library are followed while they return; what they raise is not part
    of this model. *)
Inductive ending {Gym Agent : Type} : Type :=
| Finished (self : PongEnv.t Gym) (a2c : Agent)
| Raised (e : exn)
| OutOfFuel (self : PongEnv.t Gym) (a2c : Agent).
Arguments ending : clear implicits.

Section PlayLoop.
Context `{PongEnv.GymEnvironment Gym World} `{A2C Agent}.

(** [env.env.render()] *)
Definition rendered (self : PongEnv.t Gym) : PongEnv.t Gym :=
  PongEnv.set_env (PongEnv.render (PongEnv.env self)) self.

(** [while not env.terminated: env.env.render();
     env.step(a2c.select_action(env.state))] *)
Fixpoint while_loop (fuel : nat) (env : PongEnv.t Gym) (a2c : Agent)
  : list (event Gym) * ending Gym Agent :=
  match fuel with
  | O => ([], OutOfFuel env a2c)
  | S fuel' =>
      if PongEnv.terminated env then ([], Finished env a2c)
      else
        let env1 := rendered env in
        match PongEnv.state env1 with
        | Raise e => ([EvRender env], Raised e)
        | Ok obs =>
            let '(action, a2c') := select_action a2c obs in
            let '(tr, fin) :=
              while_loop fuel' (PongEnv.step env1 action) a2c' in
            (EvRender env :: EvStep env1 action :: tr, fin)
        end
  end.

(** The whole cell: [env.reset()] and then the loop. *)
Definition play (fuel : nat) (env : PongEnv.t Gym) (a2c : Agent)
  : list (event Gym) * ending Gym Agent :=
  let '(tr, fin) := while_loop fuel (PongEnv.reset env) a2c in
  (EvReset :: tr, fin).

(** The sequences of calls the loop can make when it is at its head with
    the environment [env] and the agent [a2c]. *)
Inductive loop_trace : PongEnv.t Gym → Agent → list (event Gym) → Prop :=
| loop_stop env a2c : loop_trace env a2c []
| loop_raise env a2c e :
    PongEnv.terminated env = false →
    PongEnv.state (rendered env) = Raise e →
    loop_trace env a2c [EvRender env]
| loop_iter env a2c obs action a2c' tr :
    PongEnv.terminated env = false →
    PongEnv.state (rendered env) = Ok obs →
    select_action a2c obs = (action, a2c') →
    loop_trace (PongEnv.step (rendered env) action) a2c' tr →
    loop_trace env a2c (EvRender env :: EvStep (rendered env) action :: tr).

(** Whole iterations, as the specification words them: [iterations env a2c
    tr env' a2c'] says that the loop, at its head with the environment [env]
    and the agent [a2c], makes the calls [tr] and is at its head again with
    [env'] and [a2c'].  One iteration is made only while [env.terminated]
    is false; it renders, reads [env.state] after that, lets the agent as it
    then is select the action, and steps with that action. *)
Inductive iterations
  : PongEnv.t Gym → Agent → list (event Gym) → PongEnv.t Gym → Agent → Prop :=
| iterations_none env a2c : iterations env a2c [] env a2c
| iterations_more env a2c obs action a2c' tr env' a2c'' :
    PongEnv.terminated env = false →
    PongEnv.state (rendered env) = Ok obs →
    select_action a2c obs = (action, a2c') →
    iterations (PongEnv.step (rendered env) action) a2c' tr env' a2c'' →
    iterations env a2c
      (EvRender env :: EvStep (rendered env) action :: tr) env' a2c''.

End PlayLoop.

(** ** The class [PongPolicy] *)

(** The Keras layers the policy uses, as the symbolic tensors their calls
    return.  A [GRU] called with [return_state=True] returns two tensors, the
    output and the final state. *)
Inductive activation : Type := relu | softmax.

#[local] Unset Elimination Schemes.
Inductive tensor : Type :=
| Input (shape : list nat)
| Reshape (target_shape : list Z) (x : tensor)
| Conv2D (filters kernel_size strides : nat) (act : option activation)
    (x : tensor)
| Dense (units : nat) (act : option activation) (x : tensor)
| Flatten (x : tensor)
| GRU_output (units : nat) (return_state return_sequences time_major : bool)
    (x initial_state : tensor)
| GRU_final_state (units : nat)
    (return_state return_sequences time_major : bool)
    (x initial_state : tensor)
| Concatenate (xs : list tensor).
#[local] Set Elimination Schemes.

(** [tf.keras.Model(inputs=..., outputs=...)] *)
Record Model : Type := {
  inputs : list tensor;
  outputs : list tensor
}.

(** What [dc.rl.Policy.__init__] stores. *)
Record Policy : Type := {
  output_names : list string;
  rnn_initial_states : list ndarray
}.

Module PongPolicy.

Definition __init__ : Policy :=
  {| output_names := ["action_prob"; "value"; "rnn_state"];
     rnn_initial_states := [np_zeros [16%nat]] |}.

(** [env] is the notebook's global [env = PongEnv()]. *)
Definition create_model {Gym} (env : PongEnv.t Gym) : Model :=
  let state := Input [80; 80]%nat in
  let rnn_state := Input [16%nat] in
  let conv1 := Conv2D 16 8 4 (Some relu) (Reshape [80; 80; 1] state) in
  let conv2 := Conv2D 32 4 2 (Some relu) conv1 in
  let dense := Dense 256 (Some relu) (Flatten conv2) in
  let gru :=
    GRU_output 16 true true true (Reshape [-1; 256] dense) rnn_state in
  let rnn_final_state :=
    GRU_final_state 16 true true true (Reshape [-1; 256] dense) rnn_state in
  let concat := Concatenate [dense; Reshape [16] gru] in
  let action_prob := Dense (PongEnv.n_actions env) (Some softmax) concat in
  let value := Dense 1 None concat in
  {| inputs := [state; rnn_state];
     outputs := [action_prob; value; rnn_final_state] |}.

End PongPolicy.

(** ** Elements, pixels and tables *)

(** Block [i] of a list cut into blocks of [c] elements. *)
Definition block_at (c i : nat) (d : list Z) : list Z :=
  take c (drop (i * c) d).

(** [sum] of a Python list of integers. *)
Definition sumZ (l : list Z) : Z := foldr Z.add 0 l.

(** The channel values of the pixel in row [r] and column [c] of an array of
    shape [_ :: W :: C :: []] with elements [d]. *)
Definition pixel (W C : nat) (d : list Z) (r c : nat) : list Z :=
  block_at (size_of [C]) c (block_at (size_of [W; C]) r d).

(** A two-dimensional table in row-major order. *)
Definition table {A} (F : nat → nat → A) (rows cols : list nat) : list A :=
  mjoin ((λ r, F r <$> cols) <$> rows).

(** The value [state] writes for a pixel whose channels sum to [g]. *)
Definition bw_value (g : Z) : Z := if decide (g = 233) then 0 else 1.

(** A raw Pong screen: 210 rows, 160 columns, three colour channels of
    unsigned bytes. *)
Definition raw_frame (a : ndarray) : Prop :=
  shape a = [210; 160; 3]%nat ∧ dtype_of a = uint8 ∧
  well_formed a ∧ well_typed a.

#[global] Instance in_range_dec (t : dtype) (v : Z) : Decision (in_range t v).
Proof. destruct t; simpl; apply _. Defined.

(** The rows and the columns of the frame that [state] keeps. *)
Definition rows80 : list nat := (λ i, 34 + 2 * i)%nat <$> seq 0 80.
Definition cols80 : list nat := (λ j, 2 * j)%nat <$> seq 0 80.

(** ** Sample objects *)

(** A screen with the background colour of Pong everywhere except for a
    ball of 4 by 2 pixels. *)
Definition background : list Z := [144; 72; 17].
Definition ball_colour : list Z := [236; 236; 236].
Definition sample_pixel (r c : nat) : list Z :=
  if bool_decide (100 ≤ r < 104 ∧ 80 ≤ c < 82)%nat
  then ball_colour else background.
Definition sample_frame : ndarray :=
  NDArray [210; 160; 3]%nat uint8
    (mjoin ((λ r, mjoin (sample_pixel r <$> seq 0 160)) <$> seq 0 210)).

(** A stand-in for the library: the wrapped environment is a step counter,
    every screen is [sample_frame], and the game ends after three steps. *)
#[local] Instance toy_gym : PongEnv.GymEnvironment nat unit := {|
  PongEnv.super_init := λ _ w,
    (PongEnv.Build 0%nat (NDArray [] uint8 [0]) false [210; 160; 3]%nat 6%nat,
     w);
  PongEnv.reset := λ self,
    PongEnv.Build 0%nat sample_frame false
      (PongEnv._state_shape self) (PongEnv.n_actions self);
  PongEnv.step := λ self _,
    PongEnv.Build (S (PongEnv.env self)) sample_frame
      (bool_decide (2 ≤ PongEnv.env self)%nat)
      (PongEnv._state_shape self) (PongEnv.n_actions self);
  PongEnv.render := λ g, g
|}.

Definition sample_env : PongEnv.t nat :=
  PongEnv.reset (PongEnv.__init__ tt).1.

(** An agent that always picks action 0. *)
#[local] Instance toy_a2c : A2C unit :=
  {| select_action := λ ag _, (0%nat, ag) |}.

(** What a call is, and the step counter of the toy environment when it is
    made. *)
Definition summary (ev : event nat) : string * nat :=
  match ev with
  | EvReset => ("reset", 0%nat)
  | EvRender self => ("render", PongEnv.env self)
  | EvStep self _ => ("step", PongEnv.env self)
  end.

(** ** Further vocabulary and sample objects *)

(** The sum of the three colour channels of the pixel in row [r] and column
    [c] of a frame; a channel that does not exist counts as 0. *)
Definition channel_sum (a : ndarray) (r c : nat) : Z :=
  default 0 (item a [r; c; 0%nat]) + default 0 (item a [r; c; 1%nat])
  + default 0 (item a [r; c; 2%nat]).

Definition is_render {Gym} (ev : event Gym) : bool :=
  match ev with EvRender _ => true | _ => false end.

Definition is_step {Gym} (ev : event Gym) : bool :=
  match ev with EvStep _ _ => true | _ => false end.

Definition is_raised {Gym Agent} (fin : ending Gym Agent) : bool :=
  match fin with Raised _ => true | _ => false end.

Definition is_out_of_fuel {Gym Agent} (fin : ending Gym Agent) : bool :=
  match fin with OutOfFuel _ _ => true | _ => false end.

(** The screen of 210 by 160 pixels whose pixel in row [r] and column [c] has
    the channels [px r c]. *)
Definition frame_of (px : nat → nat → list Z) : ndarray :=
  NDArray [210; 160; 3]%nat uint8
    (mjoin ((λ r, mjoin (px r <$> seq 0 160)) <$> seq 0 210)).

(** The sample screen in other colours: a white ball on a background of
    (233, 0, 0). *)
Definition recoloured_pixel (r c : nat) : list Z :=
  if bool_decide (100 ≤ r < 104 ∧ 80 ≤ c < 82)%nat
  then [255; 255; 255] else [233; 0; 0].

(** The sample screen with the 34 rows above the play area painted over. *)
Definition rescored_pixel (r c : nat) : list Z :=
  if bool_decide (r < 34)%nat then ball_colour else sample_pixel r c.

(** An object whose [_state] is [a]. *)
Definition env_showing (a : ndarray) : PongEnv.t nat :=
  PongEnv.Build 0%nat a false [80; 80]%nat 6%nat.

(** A small screen of 38 rows and 5 columns. *)
Definition small_frame : ndarray :=
  NDArray [38; 5; 3]%nat uint8 ((λ k, Z.of_nat (k `mod` 256)) <$> seq 0 570).

(** ** Lists cut into blocks *)

Lemma reshape_lookup (c n i : nat) (d : list Z) :
  (i < n)%nat → reshape (replicate n c) d !! i = Some (block_at c i d).
Proof.
  unfold block_at. revert i d.
  induction n as [|n IH]; intros i d Hi; [lia|].
  destruct i as [|i]; simpl; [done|].
  rewrite IH by lia. by rewrite drop_drop, Nat.add_comm.
Qed.

Lemma reshape_seq (c n : nat) (d : list Z) :
  reshape (replicate n c) d = (λ i, block_at c i d) <$> seq 0 n.
Proof.
  apply list_eq. intros i. rewrite list_lookup_fmap.
  destruct (decide (i < n)%nat) as [Hi|Hi].
  - rewrite reshape_lookup, lookup_seq_lt by done. done.
  - rewrite lookup_seq_ge by lia.
    apply lookup_ge_None_2. rewrite length_reshape, length_replicate. lia.
Qed.

Lemma length_block_at (c i n : nat) (d : list Z) :
  length d = (n * c)%nat → (i < n)%nat → length (block_at c i d) = c.
Proof.
  intros Hd Hi. unfold block_at. rewrite length_take, length_drop. nia.
Qed.

Lemma join_blocks (c n : nat) (d : list Z) :
  length d = (n * c)%nat → mjoin ((λ i, block_at c i d) <$> seq 0 n) = d.
Proof.
  intros Hd. rewrite <- reshape_seq. apply join_reshape.
  rewrite sum_list_replicate. lia.
Qed.

Lemma block_at_join (c i : nat) (ls : list (list Z)) (l : list Z) :
  Forall (λ l, length l = c) ls → ls !! i = Some l →
  block_at c i (mjoin ls) = l.
Proof.
  unfold block_at. revert i. induction ls as [|x ls IH]; intros i Hall Hl.
  - by rewrite lookup_nil in Hl.
  - apply Forall_cons in Hall as [Hx Hall]. destruct i as [|i]; csimpl in *.
    + injection Hl as ->. by rewrite drop_0, take_app_length'.
    + rewrite drop_app_ge by lia.
      replace (c + i * c - length x)%nat with (i * c)%nat by lia. by apply IH.
Qed.

Lemma lookup_block_at (c i k : nat) (d : list Z) :
  (k < c)%nat → block_at c i d !! k = d !! (i * c + k)%nat.
Proof. intros Hk. unfold block_at. by rewrite lookup_take_lt, lookup_drop. Qed.

(** ** The error monad on lists *)

Lemma mapM_Ok {A B} (f : A → result B) (g : A → B) (l : list A) :
  Forall (λ x, f x = Ok (g x)) l → mapM f l = Ok (g <$> l).
Proof.
  induction 1 as [|x l Hx _ IH]; [done|].
  change (mapM f (x :: l))
    with (f x ≫= λ y, mapM f l ≫= λ k, mret (y :: k)).
  by rewrite Hx, IH.
Qed.

Lemma select_blocks (c n : nat) (d : list Z) (idx : list nat) :
  Forall (λ i, i < n)%nat idx →
  mapM (λ i, checked (reshape (replicate n c) d !! i)) idx
  = Ok ((λ i, block_at c i d) <$> idx).
Proof.
  intros Hidx. apply mapM_Ok. eapply Forall_impl; [exact Hidx|].
  intros i Hi. simpl. by rewrite reshape_lookup.
Qed.

(** ** Slices select positions inside the axis *)

Lemma adjust_bound_range (len st v : Z) :
  0 ≤ len →
  (0 < st → 0 ≤ adjust_bound len st v ≤ len) ∧
  (st < 0 → -1 ≤ adjust_bound len st v ≤ len - 1).
Proof.
  intros Hlen. unfold adjust_bound.
  repeat case_match; rewrite ?Z.ltb_lt, ?Z.ltb_ge, ?Z.leb_le, ?Z.leb_gt in *;
    lia.
Qed.

Lemma slice_bounds_range (s : slice) (len lo hi st : Z) :
  0 ≤ len → slice_bounds s len = (lo, hi, st) →
  (0 < st → 0 ≤ lo ∧ hi ≤ len) ∧ (st < 0 → lo ≤ len - 1 ∧ -1 ≤ hi).
Proof.
  intros Hlen. unfold slice_bounds. intros [= <- <- <-].
  pose proof (λ v, adjust_bound_range len (default 1 (slice_step s)) v Hlen)
    as Hadj.
  split; intros Hst.
  - split.
    + destruct (slice_start s) as [v|]; [apply Hadj; lia|].
      case_match; rewrite ?Z.ltb_lt in *; lia.
    + destruct (slice_stop s) as [v|]; [apply Hadj; lia|].
      case_match; rewrite ?Z.ltb_lt in *; lia.
  - split.
    + destruct (slice_start s) as [v|]; [apply Hadj; lia|].
      case_match; rewrite ?Z.ltb_lt, ?Z.ltb_ge in *; lia.
    + destruct (slice_stop s) as [v|]; [apply Hadj; lia|].
      case_match; rewrite ?Z.ltb_lt, ?Z.ltb_ge in *; lia.
Qed.

Lemma slice_count_pos (lo hi st k : Z) :
  0 < st → 0 ≤ k < slice_count lo hi st → lo + k * st < hi.
Proof.
  intros Hst [Hk0 Hk]. unfold slice_count in Hk.
  destruct (st <? 0) eqn:E; [apply Z.ltb_lt in E; lia|].
  destruct (lo <? hi) eqn:E'; [apply Z.ltb_lt in E'|lia].
  rewrite Z.quot_div_nonneg in Hk by lia.
  pose proof (Z.mul_div_le (hi - lo - 1) st Hst). nia.
Qed.

Lemma slice_count_neg (lo hi st k : Z) :
  st < 0 → 0 ≤ k < slice_count lo hi st → hi < lo + k * st.
Proof.
  intros Hst [Hk0 Hk]. unfold slice_count in Hk.
  destruct (st <? 0) eqn:E; [|apply Z.ltb_ge in E; lia].
  destruct (hi <? lo) eqn:E'; [apply Z.ltb_lt in E'|lia].
  rewrite Z.quot_div_nonneg in Hk by lia.
  assert (0 < - st) as Hst' by lia.
  pose proof (Z.mul_div_le (lo - hi - 1) (- st) Hst'). nia.
Qed.

(** Whatever its bounds, a slice only selects positions of the axis. *)
Lemma slice_indices_bounded (s : slice) (n : nat) (idx : list nat) :
  slice_indices s n = Ok idx → Forall (λ i, i < n)%nat idx.
Proof.
  unfold slice_indices.
  destruct (slice_bounds s (Z.of_nat n)) as [[lo hi] st] eqn:Hb.
  apply slice_bounds_range in Hb as [Hpos Hneg]; [|lia].
  case_decide as Hst; [done|]. intros [= <-].
  apply Forall_fmap, Forall_forall. intros k Hk%elem_of_seq. simpl.
  destruct (decide (0 < st)) as [Hst'|Hst'].
  - pose proof (slice_count_pos lo hi st (Z.of_nat k) Hst'). nia.
  - pose proof (slice_count_neg lo hi st (Z.of_nat k)). nia.
Qed.

Lemma slice_indices_full (n : nat) : slice_indices full_slice n = Ok (seq 0 n).
Proof.
  unfold slice_indices, slice_bounds, slice_count. simpl.
  f_equal. destruct (decide (n = 0)%nat) as [->|Hn]; [done|].
  destruct (0 <? Z.of_nat n) eqn:E; [|apply Z.ltb_ge in E; lia].
  rewrite Z.quot_1_r.
  replace (Z.to_nat (Z.of_nat n - 0 - 1 + 1)) with n by lia.
  rewrite <- (list_fmap_id (seq 0 n)) at 2.
  apply list_fmap_ext. intros _ k _. simpl. lia.
Qed.

(** ** Indexing one axis at a time *)

Lemma size_of_cons (n : nat) (sh : list nat) :
  size_of (n :: sh) = (n * size_of sh)%nat.
Proof. reflexivity. Qed.

Lemma getitem_data_cons (s : slice) (key' : list slice) (n : nat)
    (sh' : list nat) (d : list Z) (idx : list nat) (g : list Z → list Z) :
  slice_indices s n = Ok idx →
  Forall (λ i, getitem_data key' sh' (block_at (size_of sh') i d)
               = Ok (g (block_at (size_of sh') i d))) idx →
  getitem_data (s :: key') (n :: sh') d
  = Ok (mjoin ((λ i, g (block_at (size_of sh') i d)) <$> idx)).
Proof.
  intros Hs Hg. cbn [getitem_data]. rewrite Hs. cbn [mbind result_bind].
  unfold blocks. rewrite select_blocks by eauto using slice_indices_bounded.
  cbn [mbind result_bind].
  rewrite (mapM_Ok _ g) by by apply Forall_fmap.
  cbn [fmap result_fmap]. by rewrite <- list_fmap_compose.
Qed.

Lemma getitem_shape_cons (s : slice) (key' : list slice) (n : nat)
    (sh' sh'' : list nat) (idx : list nat) :
  slice_indices s n = Ok idx → getitem_shape key' sh' = Ok sh'' →
  getitem_shape (s :: key') (n :: sh') = Ok (length idx :: sh'').
Proof. intros Hs Hk. cbn [getitem_shape]. by rewrite Hs, Hk. Qed.

(** Full slices select everything: [a[:, :]] has the elements of [a]. *)
Lemma getitem_data_full (key : list slice) (sh : list nat) (d : list Z) :
  Forall (λ s, s = full_slice) key → (length key ≤ length sh)%nat →
  length d = size_of sh → getitem_data key sh d = Ok d.
Proof.
  revert sh d. induction key as [|s key IH]; intros sh d Hkey Hlen Hd.
  { by destruct sh. }
  apply Forall_cons in Hkey as [-> Hkey].
  destruct sh as [|n sh']; simpl in Hlen; [lia|].
  rewrite size_of_cons in Hd.
  rewrite (getitem_data_cons _ _ _ _ _ (seq 0 n) id).
  - f_equal. by apply join_blocks.
  - apply slice_indices_full.
  - apply Forall_forall. intros i Hi%elem_of_seq. apply IH; [done|lia|].
    apply (length_block_at _ _ n); [done|lia].
Qed.

Lemma getitem_shape_full (key : list slice) (sh : list nat) :
  Forall (λ s, s = full_slice) key → (length key ≤ length sh)%nat →
  getitem_shape key sh = Ok sh.
Proof.
  revert sh. induction key as [|s key IH]; intros sh Hkey Hlen.
  { by destruct sh. }
  apply Forall_cons in Hkey as [-> Hkey].
  destruct sh as [|n sh']; simpl in Hlen; [lia|].
  rewrite (getitem_shape_cons _ _ _ _ sh' (seq 0 n)).
  - by rewrite length_seq.
  - apply slice_indices_full.
  - apply IH; [done|lia].
Qed.

(** ** Summing one axis at a time *)

Lemma sum_axis_last (px : list Z) :
  sum_axis 0 [length px] px = Ok [sumZ px].
Proof.
  cbn [sum_axis]. f_equal. unfold blocks. change (size_of []) with 1%nat.
  induction px as [|x px IH]; [done|].
  cbn [length replicate reshape foldr take drop] in IH |- *.
  rewrite drop_0, take_0, IH. done.
Qed.

Lemma sum_axis_succ (axis n : nat) (sh' : list nat) (d : list Z)
    (g : list Z → list Z) :
  (axis < length sh')%nat →
  Forall (λ i, sum_axis axis sh' (block_at (size_of sh') i d)
               = Ok (g (block_at (size_of sh') i d))) (seq 0 n) →
  sum_axis (S axis) (n :: sh') d
  = Ok (mjoin ((λ i, g (block_at (size_of sh') i d)) <$> seq 0 n)).
Proof.
  intros Haxis Hg. cbn [sum_axis]. rewrite decide_True by done.
  unfold blocks. rewrite reshape_seq.
  rewrite (mapM_Ok _ g) by by apply Forall_fmap.
  cbn [fmap result_fmap]. by rewrite <- list_fmap_compose.
Qed.

(** ** The stages of [state] on a three-dimensional array *)

Lemma fmap_seq_ext {A B} (G : nat → B) (F : A → B) (l : list A) :
  (∀ i x, l !! i = Some x → G i = F x) →
  G <$> seq 0 (length l) = F <$> l.
Proof.
  intros HG. apply list_eq. intros i. rewrite !list_lookup_fmap.
  destruct (l !! i) as [x|] eqn:Hx.
  - rewrite lookup_seq_lt by eauto using lookup_lt_Some.
    simpl. f_equal. eauto.
  - rewrite lookup_seq_ge; [done|]. by apply lookup_ge_None.
Qed.

Lemma length_pixel (H W C r c : nat) (d : list Z) :
  length d = size_of [H; W; C] → (r < H)%nat → (c < W)%nat →
  length (pixel W C d r c) = C.
Proof.
  intros Hd Hr Hc. unfold pixel.
  replace (size_of [C]) with C by (simpl; lia).
  apply (length_block_at _ _ W); [|done].
  rewrite (length_block_at _ _ H); [simpl; lia|done|done].
Qed.

Lemma join_singletons {A B} (f : A → B) (l : list A) :
  mjoin ((λ x, [f x]) <$> l) = f <$> l.
Proof. induction l as [|x l IH]; [done|]. csimpl. by f_equal. Qed.

Lemma length_join_same (c : nat) (ls : list (list Z)) :
  Forall (λ l, length l = c) ls → length (mjoin ls) = (length ls * c)%nat.
Proof.
  intros Hls. rewrite length_join, (sum_list_fmap_same c) by done. done.
Qed.

Lemma cropped_data (H W C : nat) (d : list Z) (I0 : list nat) :
  length d = size_of [H; W; C] → slice_indices play_area H = Ok I0 →
  getitem_data [play_area; full_slice; full_slice] [H; W; C] d
  = Ok (mjoin ((λ r, block_at (size_of [W; C]) r d) <$> I0)).
Proof.
  intros Hd HI0.
  rewrite (getitem_data_cons _ _ _ _ _ I0 id); [done..|].
  eapply Forall_impl; [by eapply slice_indices_bounded|].
  intros r Hr. simpl in Hr.
  apply getitem_data_full; [by repeat constructor|simpl; lia|].
  by apply (length_block_at _ _ H).
Qed.

Lemma reduced_data (n W C : nat) (d : list Z) (I1 J1 : list nat) :
  slice_indices every_other n = Ok I1 → slice_indices every_other W = Ok J1 →
  getitem_data [every_other; every_other] [n; W; C] d
  = Ok (mjoin ((λ r, mjoin (pixel W C d r <$> J1)) <$> I1)).
Proof.
  intros HI1 HJ1.
  rewrite (getitem_data_cons _ _ _ _ _ I1
             (λ p, mjoin ((λ c, block_at (size_of [C]) c p) <$> J1)));
    [done..|].
  apply Forall_forall. intros r _.
  rewrite (getitem_data_cons _ _ _ _ _ J1 id); [done..|].
  by apply Forall_forall.
Qed.

Lemma gray_data (n m C : nat) (d : list Z) :
  length d = size_of [n; m; C] →
  sum_axis 2 [n; m; C] d
  = Ok (table (λ r c, sumZ (pixel m C d r c)) (seq 0 n) (seq 0 m)).
Proof.
  intros Hd.
  rewrite (sum_axis_succ _ _ _ _
     (λ p, mjoin ((λ c, [sumZ (block_at (size_of [C]) c p)]) <$> seq 0 m))).
  - f_equal. unfold table, pixel. f_equal. apply list_fmap_ext.
    intros _ r _. generalize (block_at (size_of [m; C]) r d). intros p.
    apply join_singletons.
  - simpl. lia.
  - apply Forall_forall. intros r Hr%elem_of_seq.
    rewrite (sum_axis_succ _ _ _ _ (λ px, [sumZ px])); [done|simpl; lia|].
    apply Forall_forall. intros c Hc%elem_of_seq.
    pose proof (length_pixel n m C r c d Hd) as Hlen. unfold pixel in Hlen.
    rewrite <- Hlen at 1 by lia. apply sum_axis_last.
Qed.

Lemma table_seq_ext {A} (G F : nat → nat → A) (rows cols : list nat) :
  (∀ i r j c, rows !! i = Some r → cols !! j = Some c → G i j = F r c) →
  table G (seq 0 (length rows)) (seq 0 (length cols)) = table F rows cols.
Proof.
  intros HG. unfold table. f_equal. apply fmap_seq_ext. intros i r Hr.
  apply fmap_seq_ext. intros j c Hc. eauto.
Qed.

Lemma fmap_table {A B} (f : A → B) (F : nat → nat → A)
    (rows cols : list nat) :
  f <$> table F rows cols = table (λ r c, f (F r c)) rows cols.
Proof.
  unfold table. induction rows as [|r rows IH]; [done|].
  csimpl. rewrite fmap_app, IH. f_equal. by rewrite <- list_fmap_compose.
Qed.

Lemma length_table {A} (F : nat → nat → A) (rows cols : list nat) :
  length (table F rows cols) = (length rows * length cols)%nat.
Proof.
  unfold table. induction rows as [|r rows IH]; [done|].
  csimpl. rewrite length_app, IH, length_fmap. lia.
Qed.

Lemma lookup_table {A} (F : nat → nat → A) (rows cols : list nat)
    (i j r c : nat) :
  rows !! i = Some r → cols !! j = Some c →
  table F rows cols !! (i * length cols + j)%nat = Some (F r c).
Proof.
  revert i. unfold table. induction rows as [|r' rows IH]; intros i Hr Hc.
  { by rewrite lookup_nil in Hr. }
  pose proof (lookup_lt_Some _ _ _ Hc) as Hj. csimpl.
  destruct i as [|i]; simpl in Hr.
  - injection Hr as ->. rewrite lookup_app_l by (rewrite length_fmap; lia).
    change (0 * length cols + j)%nat with j.
    by rewrite list_lookup_fmap, Hc.
  - rewrite lookup_app_r by (rewrite length_fmap; lia).
    rewrite length_fmap.
    replace (S i * length cols + j - length cols)%nat
      with (i * length cols + j)%nat by lia.
    by apply IH.
Qed.

(** Masking an array of zeros: the positions that are set in the mask become
    [v], the others stay 0. *)
Lemma mask_zeros (f : Z → Z) (l : list Z) (v : Z) :
  mjoin (zip_with
           (λ m blk, if decide (m = 0) then blk else replicate (length blk) v)
           (f <$> l)
           (reshape (replicate (length l) 1%nat) (replicate (length l) 0)))
  = (λ g, if decide (f g = 0) then 0 else v) <$> l.
Proof.
  induction l as [|x l IH]; [done|].
  cbn [length replicate reshape take drop fmap list_fmap zip_with].
  rewrite take_0, drop_0. csimpl. rewrite IH. by case_decide.
Qed.

Lemma state_threshold {Gym} (self : PongEnv.t Gym) :
  PongEnv.state self = cropped_grayscale self ≫= black_and_white.
Proof.
  unfold PongEnv.state, cropped_grayscale, black_and_white.
  destruct (getitem [play_area; full_slice; full_slice]
              (np_array (PongEnv._state self)))
    as [cropped|e]; [|done]. cbn [mbind result_bind].
  destruct (getitem [every_other; every_other] cropped) as [reduced|e];
    [|done]. cbn [mbind result_bind].
  by destruct (np_sum reduced 2).
Qed.

(** The channel sums of the selected pixels, for any well-formed
    three-dimensional array, in terms of the positions its three slices
    select. *)
Lemma grayscale_rank3 {Gym} (self : PongEnv.t Gym) (H W C : nat)
    (I0 I1 J1 : list nat) :
  let a := PongEnv._state self in
  well_formed a → shape a = [H; W; C] →
  slice_indices play_area H = Ok I0 →
  slice_indices every_other (length I0) = Ok I1 →
  slice_indices every_other W = Ok J1 →
  cropped_grayscale self
  = Ok (NDArray [length I1; length J1] (sum_dtype (dtype_of a))
          (table (λ r c, sum_wrap (sum_dtype (dtype_of a))
                           (sumZ (pixel W C (data a) r c)))
             ((λ i, I0 !!! i) <$> I1) J1)).
Proof.
  destruct self as [gym [sh t d] tm ss na]. unfold well_formed. simpl.
  intros Hd -> HI0 HI1 HJ1.
  pose proof (slice_indices_bounded _ _ _ HI0) as BI0.
  pose proof (slice_indices_bounded _ _ _ HI1) as BI1.
  pose proof (slice_indices_bounded _ _ _ HJ1) as BJ1.
  rewrite Forall_forall in BI0, BI1, BJ1.
  assert (∀ i r, ((λ i, I0 !!! i) <$> I1) !! i = Some r → r < H)%nat as BI01.
  { intros i r. rewrite list_lookup_fmap.
    destruct (I1 !! i) as [k|] eqn:Hk; [|done]. intros [= <-].
    apply BI0, list_elem_of_lookup_total_2, BI1.
    eapply list_elem_of_lookup_2, Hk. }
  (* cropped *)
  unfold cropped_grayscale, np_array, getitem.
  cbn [PongEnv._state shape data dtype_of].
  rewrite (getitem_shape_cons _ _ _ _ [W; C] I0);
    [|done|by apply getitem_shape_full; [repeat constructor|simpl; lia]].
  cbn [mbind result_bind]. rewrite (cropped_data H W C d I0) by done.
  cbn [mbind result_bind shape data dtype_of].
  set (crop := mjoin ((λ r, block_at (size_of [W; C]) r d) <$> I0)).
  (* reduced *)
  assert (getitem_shape [every_other] [W; C] = Ok [length J1; C]) as Hsh1.
  { by apply (getitem_shape_cons _ [] _ _ [C]). }
  rewrite (getitem_shape_cons _ _ _ _ [length J1; C] I1) by done.
  cbn [mbind result_bind]. rewrite (reduced_data _ W C crop I1 J1) by done.
  cbn [mbind result_bind shape data dtype_of].
  assert (∀ i r, I0 !! i = Some r →
            block_at (size_of [W; C]) i crop = block_at (size_of [W; C]) r d)
    as Hcrop.
  { intros i r Hr. apply block_at_join.
    - apply Forall_fmap, Forall_forall. intros r' Hr'. simpl.
      apply (length_block_at _ _ H); [by rewrite Hd|by apply BI0].
    - by rewrite list_lookup_fmap, Hr. }
  assert ((λ r, mjoin (pixel W C crop r <$> J1)) <$> I1
          = (λ r, mjoin (pixel W C d r <$> J1)) <$> ((λ i, I0 !!! i) <$> I1))
    as ->.
  { rewrite <- list_fmap_compose. apply list_fmap_ext. intros k i Hi. simpl.
    apply list_elem_of_lookup_2, BI1 in Hi.
    apply lookup_lt_is_Some in Hi as [r Hr].
    unfold pixel. rewrite (Hcrop i r Hr).
    by rewrite (list_lookup_total_correct _ _ _ Hr). }
  set (I01 := (λ i, I0 !!! i) <$> I1) in *.
  set (red := mjoin ((λ r, mjoin (pixel W C d r <$> J1)) <$> I01)).
  assert (Forall (λ l, length l = size_of [length J1; C])
            ((λ r, mjoin (pixel W C d r <$> J1)) <$> I01)) as Hrows.
  { apply Forall_fmap, Forall_forall. intros r Hr. simpl.
    apply list_elem_of_lookup in Hr as [i Hr].
    rewrite (length_join_same C), length_fmap; [simpl; lia|].
    apply Forall_fmap, Forall_forall. intros c Hc. simpl.
    apply (length_pixel H); eauto. }
  assert (length red = size_of [length I1; length J1; C]) as Hred.
  { unfold red. rewrite (length_join_same _ _ Hrows), length_fmap.
    unfold I01. by rewrite length_fmap. }
  (* grayscale *)
  unfold np_sum. cbn [shape data dtype_of].
  rewrite (gray_data _ _ _ _ Hred). cbn [mbind result_bind delete list_delete].
  replace (length I1) with (length I01) by (unfold I01; by rewrite length_fmap).
  rewrite (table_seq_ext _ (λ r c, sumZ (pixel W C d r c))); cycle 1.
  { intros i r j c Hr Hc. f_equal. unfold pixel at 1.
    unfold red. erewrite block_at_join;
      [|exact Hrows|by rewrite list_lookup_fmap, Hr].
    apply block_at_join; [|by rewrite list_lookup_fmap, Hc].
    apply Forall_fmap, Forall_forall. intros c' Hc'. simpl.
    erewrite (length_pixel H); [simpl; lia|done|by eapply BI01|by apply BJ1]. }
  replace (length I01) with (length I1) by (unfold I01; by rewrite length_fmap).
  by rewrite fmap_table.
Qed.

(** What [state] returns on such an array. *)
Lemma state_rank3 {Gym} (self : PongEnv.t Gym) (H W C : nat)
    (I0 I1 J1 : list nat) :
  let a := PongEnv._state self in
  well_formed a → shape a = [H; W; C] →
  slice_indices play_area H = Ok I0 →
  slice_indices every_other (length I0) = Ok I1 →
  slice_indices every_other W = Ok J1 →
  PongEnv.state self
  = Ok (NDArray [length I1; length J1] float64
          (table (λ r c, bw_value (sum_wrap (sum_dtype (dtype_of a))
                                     (sumZ (pixel W C (data a) r c))))
             ((λ i, I0 !!! i) <$> I1) J1)).
Proof.
  intros a Hwf Hsh HI0 HI1 HJ1.
  rewrite state_threshold, (grayscale_rank3 self H W C I0 I1 J1) by done.
  cbn [mbind result_bind].
  unfold black_and_white, setitem_mask, ne_scalar, np_zeros.
  cbn [shape data dtype_of]. rewrite decide_True by done. f_equal. f_equal.
  rewrite drop_all. unfold blocks. change (size_of []) with 1%nat.
  set (I01 := (λ i, I0 !!! i) <$> I1).
  set (G := λ r c, sum_wrap _ _).
  replace (size_of [length I1; length J1]) with (length (table G I01 J1))
    by (rewrite length_table; unfold I01; rewrite length_fmap; simpl; lia).
  rewrite mask_zeros, fmap_table. unfold table. f_equal.
  apply list_fmap_ext. intros _ r _. apply list_fmap_ext. intros _ c _.
  simpl. unfold bw_value. by repeat case_decide.
Qed.

(** ** Atari frames *)

Lemma length_sample_pixel (r c : nat) : length (sample_pixel r c) = 3%nat.
Proof. unfold sample_pixel. by case_bool_decide. Qed.

Lemma pixel_join (F : nat → nat → list Z) (C : nat) (rows cols : list nat)
    (i j r c : nat) :
  (∀ r c, length (F r c) = C) →
  rows !! i = Some r → cols !! j = Some c →
  pixel (length cols) C (mjoin ((λ r, mjoin (F r <$> cols)) <$> rows)) i j
  = F r c.
Proof.
  intros HF Hr Hc. unfold pixel.
  rewrite (block_at_join _ _ _ (mjoin (F r <$> cols))).
  - apply block_at_join; [|by rewrite list_lookup_fmap, Hc].
    apply Forall_fmap, Forall_forall. intros c' _. simpl.
    rewrite HF. simpl. lia.
  - apply Forall_fmap, Forall_forall. intros r' _. simpl.
    rewrite (length_join_same C), length_fmap; [simpl; lia|].
    apply Forall_fmap, Forall_forall. intros c' _. apply HF.
  - by rewrite list_lookup_fmap, Hr.
Qed.

Lemma sample_frame_pixel (r c : nat) :
  (r < 210)%nat → (c < 160)%nat →
  pixel 160 3 (data sample_frame) r c = sample_pixel r c.
Proof.
  intros Hr Hc.
  apply (pixel_join sample_pixel 3 (seq 0 210) (seq 0 160) r c r c).
  - apply length_sample_pixel.
  - by apply lookup_seq_lt.
  - by apply lookup_seq_lt.
Qed.

Lemma sample_frame_raw : raw_frame sample_frame.
Proof.
  split; [done|]. split; [done|]. split.
  - unfold well_formed, sample_frame. cbn [data shape].
    rewrite (length_join_same 480), length_fmap, length_seq; [done|].
    apply Forall_fmap, Forall_forall. intros r _. cbv [compose].
    rewrite (length_join_same 3), length_fmap, length_seq; [done|].
    apply Forall_fmap, Forall_forall. intros c _. cbv [compose].
    apply length_sample_pixel.
  - unfold well_typed, sample_frame. cbn [data dtype_of].
    apply Forall_join, Forall_fmap, Forall_forall. intros r _. cbv [compose].
    apply Forall_join, Forall_fmap, Forall_forall. intros c _. cbv [compose].
    unfold sample_pixel. case_bool_decide; repeat constructor; done.
Qed.

Lemma play_area_210 : slice_indices play_area 210 = Ok (seq 34 160).
Proof. vm_compute. reflexivity. Qed.

Lemma every_other_160 : slice_indices every_other 160 = Ok cols80.
Proof. vm_compute. reflexivity. Qed.

Lemma grayscale_atari {Gym} (self : PongEnv.t Gym) :
  let a := PongEnv._state self in
  well_formed a → shape a = [210; 160; 3]%nat →
  cropped_grayscale self
  = Ok (NDArray [80; 80]%nat (sum_dtype (dtype_of a))
          (table (λ r c, sum_wrap (sum_dtype (dtype_of a))
                           (sumZ (pixel 160 3 (data a) r c)))
             rows80 cols80)).
Proof.
  intros a Hwf Hsh.
  rewrite (grayscale_rank3 self 210 160 3 (seq 34 160) cols80 cols80);
    [| done | done | apply play_area_210 | apply every_other_160
     | apply every_other_160 ].
  f_equal.
Qed.

Lemma state_atari {Gym} (self : PongEnv.t Gym) :
  let a := PongEnv._state self in
  well_formed a → shape a = [210; 160; 3]%nat →
  PongEnv.state self
  = Ok (NDArray [80; 80]%nat float64
          (table (λ r c, bw_value (sum_wrap (sum_dtype (dtype_of a))
                                     (sumZ (pixel 160 3 (data a) r c))))
             rows80 cols80)).
Proof.
  intros a Hwf Hsh.
  rewrite (state_rank3 self 210 160 3 (seq 34 160) cols80 cols80);
    [| done | done | apply play_area_210 | apply every_other_160
     | apply every_other_160 ].
  f_equal.
Qed.

(** ** Reading single elements *)

Lemma item_table (F : nat → nat → Z) (t : dtype) (rows cols : list nat)
    (i j r c : nat) :
  rows !! i = Some r → cols !! j = Some c →
  item (NDArray [length rows; length cols] t (table F rows cols)) [i; j]
  = Some (F r c).
Proof.
  intros Hr Hc. unfold item. cbn [shape data ravel].
  rewrite !decide_True by eauto using lookup_lt_Some.
  cbn [fmap option_fmap option_map mbind option_bind].
  rewrite <- (lookup_table F rows cols i j r c Hr Hc). f_equal.
  simpl. lia.
Qed.

Lemma item_pixel (a : ndarray) (H W C r c k : nat) :
  shape a = [H; W; C] → (r < H)%nat → (c < W)%nat → (k < C)%nat →
  item a [r; c; k] = pixel W C (data a) r c !! k.
Proof.
  intros Hsh Hr Hc Hk. unfold item. rewrite Hsh. cbn [ravel].
  rewrite !decide_True by done.
  cbn [fmap option_fmap option_map mbind option_bind].
  unfold pixel. rewrite !lookup_block_at by (simpl; nia).
  f_equal. simpl. lia.
Qed.

Lemma item_in_range (a : ndarray) (idx : list nat) (v : Z) :
  well_typed a → item a idx = Some v → in_range (dtype_of a) v.
Proof.
  unfold well_typed, item. intros Ha Hv.
  destruct (ravel (shape a) idx) as [off|]; [|done]. simpl in Hv.
  rewrite Forall_forall in Ha. by eapply Ha, list_elem_of_lookup_2.
Qed.

Lemma lookup_rows80 (i : nat) :
  (i < 80)%nat → rows80 !! i = Some (34 + 2 * i)%nat.
Proof.
  intros Hi. unfold rows80. by rewrite list_lookup_fmap, lookup_seq_lt.
Qed.

Lemma lookup_cols80 (j : nat) : (j < 80)%nat → cols80 !! j = Some (2 * j)%nat.
Proof.
  intros Hj. unfold cols80. by rewrite list_lookup_fmap, lookup_seq_lt.
Qed.

(** The three channels of the frame pixel behind element [(i, j)] of the
    result. *)
Lemma atari_pixel (a : ndarray) (i j : nat) :
  raw_frame a → (i < 80)%nat → (j < 80)%nat →
  ∃ red green blue,
    item a [34 + 2 * i; 2 * j; 0]%nat = Some red ∧
    item a [34 + 2 * i; 2 * j; 1]%nat = Some green ∧
    item a [34 + 2 * i; 2 * j; 2]%nat = Some blue ∧
    0 ≤ red < 256 ∧ 0 ≤ green < 256 ∧ 0 ≤ blue < 256 ∧
    pixel 160 3 (data a) (34 + 2 * i) (2 * j) = [red; green; blue].
Proof.
  intros (Hsh & Ht & Hwf & Hty) Hi Hj.
  pose proof (length_pixel 210 160 3 (34 + 2 * i) (2 * j) (data a)) as Hlen.
  unfold well_formed in Hwf. rewrite Hsh in Hwf.
  specialize (Hlen Hwf ltac:(lia) ltac:(lia)).
  pose proof (λ k, item_pixel a 210 160 3 (34 + 2 * i) (2 * j) k Hsh
                     ltac:(lia) ltac:(lia)) as Hitem.
  destruct (pixel 160 3 (data a) (34 + 2 * i) (2 * j))
    as [|red [|green [|blue [|]]]]; try done.
  exists red, green, blue.
  pose proof (Hitem 0%nat ltac:(lia)) as H0.
  pose proof (Hitem 1%nat ltac:(lia)) as H1.
  pose proof (Hitem 2%nat ltac:(lia)) as H2.
  pose proof (item_in_range a _ _ Hty H0) as R0.
  pose proof (item_in_range a _ _ Hty H1) as R1.
  pose proof (item_in_range a _ _ Hty H2) as R2.
  rewrite Ht in R0, R1, R2. done.
Qed.

Lemma sum_wrap_pixel (red green blue : Z) :
  0 ≤ red < 256 → 0 ≤ green < 256 → 0 ≤ blue < 256 →
  sum_wrap (sum_dtype uint8) (sumZ [red; green; blue]) = red + green + blue.
Proof.
  intros. simpl. unfold wrap64. rewrite Z.mod_small; lia.
Qed.

(** ** The state transform on Atari frames *)

Lemma Forall_table {A} (P : A → Prop) (F : nat → nat → A)
    (rows cols : list nat) :
  (∀ r c, P (F r c)) → Forall P (table F rows cols).
Proof.
  intros HP. unfold table.
  apply Forall_join, Forall_fmap, Forall_forall. intros r _.
  apply Forall_fmap, Forall_forall. intros c _. apply HP.
Qed.

Lemma atari_elements {Gym} (self : PongEnv.t Gym) :
  raw_frame (PongEnv._state self) →
  ∃ g bw,
    cropped_grayscale self = Ok g ∧ black_and_white g = Ok bw ∧
    PongEnv.state self = Ok bw ∧
    shape g = [80; 80]%nat ∧ shape bw = [80; 80]%nat ∧
    Forall (λ v, v = 0 ∨ v = 1) (data bw) ∧
    ∀ i j, (i < 80)%nat → (j < 80)%nat →
      ∃ red green blue,
        item (PongEnv._state self) [34 + 2 * i; 2 * j; 0]%nat = Some red ∧
        item (PongEnv._state self) [34 + 2 * i; 2 * j; 1]%nat = Some green ∧
        item (PongEnv._state self) [34 + 2 * i; 2 * j; 2]%nat = Some blue ∧
        item g [i; j] = Some (red + green + blue) ∧
        item bw [i; j] = Some (bw_value (red + green + blue)).
Proof.
  intros Hraw. pose proof Hraw as (Hsh & Ht & Hwf & Hty).
  pose proof (grayscale_atari self Hwf Hsh) as Hg.
  pose proof (state_atari self Hwf Hsh) as Hbw.
  pose proof (state_threshold self) as Hthr.
  rewrite Hg, Hbw in Hthr. cbn [mbind result_bind] in Hthr.
  eexists _, _. split; [exact Hg|]. split; [by rewrite <- Hthr|].
  split; [exact Hbw|]. split; [done|]. split; [done|]. split.
  { cbn [data]. apply Forall_table. intros r c. unfold bw_value.
    case_decide; auto. }
  intros i j Hi Hj.
  destruct (atari_pixel _ i j Hraw Hi Hj)
    as (red & green & blue & H0 & H1 & H2 & R0 & R1 & R2 & Hpx).
  exists red, green, blue. split; [done|]. split; [done|]. split; [done|].
  change [80; 80]%nat with [length rows80; length cols80].
  rewrite !(item_table _ _ rows80 cols80 i j (34 + 2 * i) (2 * j))
    by auto using lookup_rows80, lookup_cols80.
  by rewrite Hpx, Ht, sum_wrap_pixel.
Qed.

Lemma sample_env_raw : raw_frame (PongEnv._state sample_env).
Proof. apply sample_frame_raw. Qed.

Lemma item_sample_frame (r c k : nat) :
  (r < 210)%nat → (c < 160)%nat → (k < 3)%nat →
  item sample_frame [r; c; k] = sample_pixel r c !! k.
Proof.
  intros Hr Hc Hk.
  rewrite (item_pixel sample_frame 210 160 3) by done.
  by rewrite sample_frame_pixel.
Qed.

Lemma Forall_masked (P : Z → Prop) (v : Z) (ms : list Z)
    (bs : list (list Z)) :
  P v → Forall (Forall P) bs →
  Forall P
    (mjoin (zip_with
              (λ m blk,
                 if decide (m = 0) then blk else replicate (length blk) v)
              ms bs)).
Proof.
  intros Hv Hbs. revert ms.
  induction Hbs as [|b bs Hb _ IH]; intros [|m ms]; try constructor.
  csimpl. apply Forall_app. split; [|apply IH].
  case_decide; [done|by apply Forall_replicate].
Qed.

(** Whatever the array in [_state] is, an array that [state] returns holds
    nothing but 0 and 1. *)
Lemma state_values_binary {Gym} (self : PongEnv.t Gym) (bw : ndarray) :
  PongEnv.state self = Ok bw → Forall (λ v, v = 0 ∨ v = 1) (data bw).
Proof.
  rewrite state_threshold.
  destruct (cropped_grayscale self) as [g|]; [|done].
  cbn [mbind result_bind]. unfold black_and_white, setitem_mask.
  case_decide; [|done]. intros [= <-]. cbn [data ne_scalar np_zeros].
  apply Forall_masked; [by right|]. unfold blocks.
  apply Forall_reshape, Forall_replicate. by left.
Qed.

(** The transform run on the sample screen: the result has shape (80, 80)
    and is 1 at the two positions, (33, 40) and (34, 40), that show the
    ball. *)
Example state_sample_frame :
  (λ bw, (shape bw,
          filter (λ k, data bw !! k = Some 1) (seq 0 (length (data bw)))))
    <$> PongEnv.state sample_env
  = Ok ([80; 80]%nat, [2680; 2760]%nat).
Proof. vm_compute. reflexivity. Qed.

(** C1, as the specification states it, fails on the sample screen: the top
    left element of the result is 0 where the channel sum is 233. *)
Lemma state_is_not_grayscale : ¬ returns_grayscale sample_env.
Proof.
  intros (g & bw & Hg & Hbw & _ & Hdata).
  destruct (atari_elements sample_env sample_env_raw)
    as (g' & bw' & Hg' & _ & Hbw' & Hsg & Hsbw & _ & Hel).
  rewrite Hg in Hg'. rewrite Hbw in Hbw'.
  injection Hg' as <-. injection Hbw' as <-.
  destruct (Hel 0%nat 0%nat ltac:(lia) ltac:(lia))
    as (red & green & blue & H0 & H1 & H2 & Hgi & Hbwi).
  change (PongEnv._state sample_env) with sample_frame in H0, H1, H2.
  rewrite item_sample_frame in H0, H1, H2 by lia.
  injection H0 as <-. injection H1 as <-. injection H2 as <-.
  unfold item in Hgi, Hbwi. rewrite Hsg in Hgi. rewrite Hsbw, Hdata in Hbwi.
  rewrite Hgi in Hbwi. vm_compute in Hbwi. discriminate.
Qed.

(** C1, amended: on every raw frame [state] crops to rows 34 to 193, keeps
    every second row and column, sums the colour channels, and then turns
    the sums into black and white: element [(i, j)] of the result is 0 when
    the channels of frame pixel [(34 + 2 i, 2 j)] sum to 233 and 1
    otherwise. *)
Theorem state_crops_sums_thresholds {Gym} (self : PongEnv.t Gym) :
  raw_frame (PongEnv._state self) →
  ∃ g bw,
    cropped_grayscale self = Ok g ∧ black_and_white g = Ok bw ∧
    PongEnv.state self = Ok bw ∧
    ∀ i j, (i < 80)%nat → (j < 80)%nat →
      ∃ red green blue,
        (34 ≤ 34 + 2 * i ≤ 193)%nat ∧
        item (PongEnv._state self) [34 + 2 * i; 2 * j; 0]%nat = Some red ∧
        item (PongEnv._state self) [34 + 2 * i; 2 * j; 1]%nat = Some green ∧
        item (PongEnv._state self) [34 + 2 * i; 2 * j; 2]%nat = Some blue ∧
        item g [i; j] = Some (red + green + blue) ∧
        item bw [i; j]
        = Some (if decide (red + green + blue = 233) then 0 else 1).
Proof.
  intros Hraw.
  destruct (atari_elements self Hraw)
    as (g & bw & Hg & Hthr & Hbw & _ & _ & _ & Hel).
  exists g, bw. do 3 (split; [done|]). intros i j Hi Hj.
  destruct (Hel i j Hi Hj) as (red & green & blue & ? & ? & ? & ? & ?).
  exists red, green, blue. split; [lia|]. done.
Qed.

Lemma state_crops_sums_thresholds_witness :
  raw_frame (PongEnv._state sample_env) ∧
  ∃ g bw,
    cropped_grayscale sample_env = Ok g ∧ black_and_white g = Ok bw ∧
    PongEnv.state sample_env = Ok bw ∧
    ∀ i j, (i < 80)%nat → (j < 80)%nat →
      ∃ red green blue,
        (34 ≤ 34 + 2 * i ≤ 193)%nat ∧
        item (PongEnv._state sample_env) [34 + 2 * i; 2 * j; 0]%nat
        = Some red ∧
        item (PongEnv._state sample_env) [34 + 2 * i; 2 * j; 1]%nat
        = Some green ∧
        item (PongEnv._state sample_env) [34 + 2 * i; 2 * j; 2]%nat
        = Some blue ∧
        item g [i; j] = Some (red + green + blue) ∧
        item bw [i; j]
        = Some (if decide (red + green + blue = 233) then 0 else 1).
Proof.
  split; [exact sample_env_raw|].
  exact (state_crops_sums_thresholds sample_env sample_env_raw).
Defined.

(** C2: on a frame of shape (210, 160, 3) the array [state] returns has
    shape (80, 80), the [_state_shape] that [__init__] sets. *)
Theorem state_shape `{PongEnv.GymEnvironment Gym World}
    (self : PongEnv.t Gym) (w : World) :
  well_formed (PongEnv._state self) →
  shape (PongEnv._state self) = [210; 160; 3]%nat →
  ∃ bw, PongEnv.state self = Ok bw ∧ shape bw = [80; 80]%nat ∧
        shape bw = PongEnv._state_shape (PongEnv.__init__ w).1.
Proof.
  intros Hwf Hsh. eexists. split; [by apply state_atari|].
  split; [done|]. unfold PongEnv.__init__.
  by destruct (PongEnv.super_init "Pong-v0" w).
Qed.

Lemma state_shape_witness :
  well_formed (PongEnv._state sample_env) ∧
  shape (PongEnv._state sample_env) = [210; 160; 3]%nat ∧
  ∃ bw, PongEnv.state sample_env = Ok bw ∧ shape bw = [80; 80]%nat ∧
        shape bw = PongEnv._state_shape (PongEnv.__init__ tt).1.
Proof.
  pose proof sample_env_raw as (Hsh & _ & Hwf & _).
  split; [exact Hwf|]. split; [exact Hsh|].
  exact (state_shape sample_env tt Hwf Hsh).
Defined.

(** C8: on every raw frame each element of the returned array is 0 or 1; it
    is 1 exactly when the three channels of the corresponding cropped and
    downsampled pixel do not sum to 233, and 0 exactly when they do. *)
Theorem state_binary {Gym} (self : PongEnv.t Gym) :
  raw_frame (PongEnv._state self) →
  ∃ bw,
    PongEnv.state self = Ok bw ∧
    Forall (λ v, v = 0 ∨ v = 1) (data bw) ∧
    ∀ i j, (i < 80)%nat → (j < 80)%nat →
      ∃ red green blue v,
        item (PongEnv._state self) [34 + 2 * i; 2 * j; 0]%nat = Some red ∧
        item (PongEnv._state self) [34 + 2 * i; 2 * j; 1]%nat = Some green ∧
        item (PongEnv._state self) [34 + 2 * i; 2 * j; 2]%nat = Some blue ∧
        item bw [i; j] = Some v ∧
        (v = 1 ↔ red + green + blue ≠ 233) ∧
        (v = 0 ↔ red + green + blue = 233).
Proof.
  intros Hraw.
  destruct (atari_elements self Hraw)
    as (g & bw & _ & _ & Hbw & _ & _ & Hbin & Hel).
  exists bw. do 2 (split; [done|]). intros i j Hi Hj.
  destruct (Hel i j Hi Hj) as (red & green & blue & ? & ? & ? & _ & ?).
  exists red, green, blue, (bw_value (red + green + blue)).
  do 4 (split; [done|]). unfold bw_value. case_decide; split; split; lia.
Qed.

Lemma state_binary_witness :
  raw_frame (PongEnv._state sample_env) ∧
  ∃ bw,
    PongEnv.state sample_env = Ok bw ∧
    Forall (λ v, v = 0 ∨ v = 1) (data bw) ∧
    ∀ i j, (i < 80)%nat → (j < 80)%nat →
      ∃ red green blue v,
        item (PongEnv._state sample_env) [34 + 2 * i; 2 * j; 0]%nat
        = Some red ∧
        item (PongEnv._state sample_env) [34 + 2 * i; 2 * j; 1]%nat
        = Some green ∧
        item (PongEnv._state sample_env) [34 + 2 * i; 2 * j; 2]%nat
        = Some blue ∧
        item bw [i; j] = Some v ∧
        (v = 1 ↔ red + green + blue ≠ 233) ∧
        (v = 0 ↔ red + green + blue = 233).
Proof.
  split; [exact sample_env_raw|].
  exact (state_binary sample_env sample_env_raw).
Defined.

(** ** Every access of [state] is in bounds *)

Lemma getitem_Ok_shape (key : list slice) (a c : ndarray) :
  getitem key a = Ok c → getitem_shape key (shape a) = Ok (shape c).
Proof.
  unfold getitem. destruct (getitem_shape key (shape a)) as [sh|]; [|done].
  cbn [mbind result_bind].
  destruct (getitem_data key (shape a) (data a)); [|done].
  cbn [mbind result_bind]. by intros [= <-].
Qed.

Lemma cropped_grayscale_stages {Gym} (self : PongEnv.t Gym) (g : ndarray) :
  cropped_grayscale self = Ok g →
  ∃ cropped reduced,
    getitem [play_area; full_slice; full_slice] (np_array (PongEnv._state self))
    = Ok cropped ∧
    getitem [every_other; every_other] cropped = Ok reduced ∧
    np_sum reduced 2 = Ok g.
Proof.
  unfold cropped_grayscale.
  destruct (getitem [play_area; full_slice; full_slice] _) as [cropped|];
    [|done]. cbn [mbind result_bind].
  destruct (getitem [every_other; every_other] cropped) as [reduced|] eqn:Hr;
    [|done]. cbn [mbind result_bind].
  intros Hg. by exists cropped, reduced.
Qed.

(** C10: on a frame of shape (210, 160, 3) no statement of [state] raises.
    The row slice [34:194] lies inside the 210 rows and needs no clamping,
    the two [0:-1:2] slices select positions below 160, axis 2 exists in the
    array that is summed, and the mask has the shape of the array it is
    assigned into. *)
Theorem state_total {Gym} (self : PongEnv.t Gym) :
  well_formed (PongEnv._state self) →
  shape (PongEnv._state self) = [210; 160; 3]%nat →
  ∃ cropped reduced grayscale bw,
    getitem [play_area; full_slice; full_slice] (np_array (PongEnv._state self))
    = Ok cropped ∧
    getitem [every_other; every_other] cropped = Ok reduced ∧
    np_sum reduced 2 = Ok grayscale ∧
    setitem_mask (np_zeros (shape grayscale)) (ne_scalar grayscale 233) 1
    = Ok bw ∧
    PongEnv.state self = Ok bw ∧
    (* the row slice *)
    slice_bounds play_area 210 = (34, 194, 1) ∧
    slice_indices play_area 210 = Ok (seq 34 160) ∧
    Forall (λ r, 34 ≤ r < 194 ∧ r < 210)%nat (seq 34 160) ∧
    shape cropped = [160; 160; 3]%nat ∧
    (* the stride-2 slices of rows and columns *)
    slice_bounds every_other 160 = (0, 159, 2) ∧
    slice_indices every_other 160 = Ok cols80 ∧
    Forall (λ c, c < 160)%nat cols80 ∧
    shape reduced = [80; 80; 3]%nat ∧
    (* the channel sum and the mask *)
    (2 < ndim reduced)%nat ∧
    shape (ne_scalar grayscale 233) = shape (np_zeros (shape grayscale)).
Proof.
  intros Hwf Hsh.
  pose proof (grayscale_atari self Hwf Hsh) as Hg.
  pose proof (state_atari self Hwf Hsh) as Hbw.
  destruct (cropped_grayscale_stages self _ Hg)
    as (cropped & reduced & Hc & Hr & Hsum).
  pose proof (getitem_Ok_shape _ _ _ Hc) as Hcs.
  unfold np_array in Hcs. rewrite Hsh in Hcs.
  assert (shape cropped = [160; 160; 3]%nat) as Hcsh.
  { change (getitem_shape _ _) with (Ok (A:=list nat) [160; 160; 3]%nat) in Hcs.
    by injection Hcs. }
  pose proof (getitem_Ok_shape _ _ _ Hr) as Hrs. rewrite Hcsh in Hrs.
  assert (shape reduced = [80; 80; 3]%nat) as Hrsh.
  { change (getitem_shape _ _) with (Ok (A:=list nat) [80; 80; 3]%nat) in Hrs.
    by injection Hrs. }
  pose proof (state_threshold self) as Hthr.
  rewrite Hg, Hbw in Hthr. cbn [mbind result_bind] in Hthr.
  eexists cropped, reduced, _, _.
  split; [exact Hc|]. split; [exact Hr|]. split; [exact Hsum|].
  split; [exact (eq_sym Hthr)|]. split; [exact Hbw|].
  split; [done|]. split; [apply play_area_210|].
  split. { apply Forall_forall. intros r Hrow%elem_of_seq. lia. }
  split; [exact Hcsh|]. split; [done|]. split; [apply every_other_160|].
  split. { eapply slice_indices_bounded, every_other_160. }
  split; [exact Hrsh|]. split; [|done].
  unfold ndim. rewrite Hrsh. simpl. lia.
Qed.

Lemma state_total_witness :
  well_formed (PongEnv._state sample_env) ∧
  shape (PongEnv._state sample_env) = [210; 160; 3]%nat ∧
  ∃ bw, PongEnv.state sample_env = Ok bw.
Proof.
  pose proof sample_env_raw as (Hsh & _ & Hwf & _).
  split; [exact Hwf|]. split; [exact Hsh|].
  destruct (state_total sample_env Hwf Hsh)
    as (_ & _ & _ & bw & _ & _ & _ & _ & Hbw & _).
  by exists bw.
Defined.

(** ** [__deepcopy__] *)

(** C9: for every object and every memo, [__deepcopy__] returns what
    [PongEnv()] returns; so the deep copies of any two objects, however far
    their games have advanced, are the same. *)
Theorem deepcopy_is_fresh `{PongEnv.GymEnvironment Gym World} {Memo : Type}
    (self self' : PongEnv.t Gym) (memo memo' : Memo) (w : World) :
  PongEnv.__deepcopy__ self memo w = PongEnv.__init__ w ∧
  PongEnv.__deepcopy__ self memo w = PongEnv.__deepcopy__ self' memo' w.
Proof. split; reflexivity. Qed.

(** Two objects of the toy environment that differ in how far the game has
    advanced, and in which neither is in the state of a fresh object: their
    copies are equal, and equal to neither original. *)
Example deepcopy_forgets :
  let e1 := PongEnv.step sample_env 0%nat in
  let e2 := PongEnv.step e1 0%nat in
  let c1 := (PongEnv.__deepcopy__ e1 tt tt).1 in
  let c2 := (PongEnv.__deepcopy__ e2 [e1] tt).1 in
  PongEnv.env e1 = 1%nat ∧ PongEnv.env e2 = 2%nat ∧
  c1 = c2 ∧ PongEnv.env c1 = 0%nat ∧
  PongEnv._state c1 ≠ PongEnv._state e1 ∧ c1 ≠ e1 ∧ c2 ≠ e2.
Proof.
  cbv zeta. split; [done|]. split; [done|]. split; [done|]. split; [done|].
  assert (PongEnv._state (PongEnv.__deepcopy__
            (PongEnv.step sample_env 0%nat) tt tt).1
          ≠ PongEnv._state (PongEnv.step sample_env 0%nat)) as Hne.
  { intros Heq. apply (f_equal shape) in Heq. discriminate Heq. }
  split; [exact Hne|]. split.
  - intros Heq. apply Hne. by rewrite Heq at 1.
  - intros Heq. apply (f_equal PongEnv.env) in Heq. discriminate Heq.
Qed.

(** ** The play loop *)

Section PlayLoopFacts.
Context `{PongEnv.GymEnvironment Gym World} `{A2C Agent}.

Lemma while_loop_trace (fuel : nat) (env : PongEnv.t Gym) (a2c : Agent) :
  loop_trace env a2c (while_loop fuel env a2c).1.
Proof.
  revert env a2c. induction fuel as [|fuel IH]; intros env a2c.
  { apply loop_stop. }
  cbn [while_loop].
  destruct (PongEnv.terminated env) eqn:Hterm; [apply loop_stop|].
  destruct (PongEnv.state (rendered env)) as [obs|e] eqn:Hstate;
    [|by eapply loop_raise].
  destruct (select_action a2c obs) as [action a2c'] eqn:Hact.
  specialize (IH (PongEnv.step (rendered env) action) a2c').
  destruct (while_loop fuel _ a2c') as [tr fin]. by eapply loop_iter.
Qed.

(** When the loop ends by itself, the environment is terminated. *)
Lemma while_loop_finished (fuel : nat) (env env' : PongEnv.t Gym)
    (a2c a2c' : Agent) :
  (while_loop fuel env a2c).2 = Finished env' a2c' →
  PongEnv.terminated env' = true.
Proof.
  revert env a2c. induction fuel as [|fuel IH]; intros env a2c; [done|].
  cbn [while_loop].
  destruct (PongEnv.terminated env) eqn:Hterm.
  { intros [= <- <-]. done. }
  destruct (PongEnv.state (rendered env)) as [obs|e]; [|done].
  destruct (select_action a2c obs) as [action a2c1].
  specialize (IH (PongEnv.step (rendered env) action) a2c1).
  by destruct (while_loop fuel _ a2c1).
Qed.

Lemma loop_trace_terminated (env : PongEnv.t Gym) (a2c : Agent)
    (tr : list (event Gym)) :
  loop_trace env a2c tr → PongEnv.terminated env = true → tr = [].
Proof. destruct 1; congruence. Qed.

Lemma loop_trace_no_reset (env : PongEnv.t Gym) (a2c : Agent)
    (tr : list (event Gym)) :
  loop_trace env a2c tr → EvReset ∉ tr.
Proof.
  induction 1 as [| |env a2c obs action a2c' tr _ _ _ _ IH].
  - apply not_elem_of_nil.
  - rewrite list_elem_of_singleton. discriminate.
  - rewrite !not_elem_of_cons. done.
Qed.

Lemma loop_trace_render (env : PongEnv.t Gym) (a2c : Agent)
    (tr pre post : list (event Gym)) (e : PongEnv.t Gym) :
  loop_trace env a2c tr → tr = pre ++ EvRender e :: post →
  PongEnv.terminated e = false ∧
  (post = [] ∨ ∃ action post', post = EvStep (rendered e) action :: post').
Proof.
  intros Htr. revert pre.
  induction Htr as [| |env a2c obs action a2c' tr Hterm _ _ _ IH];
    intros pre Heq.
  - by destruct pre.
  - destruct pre as [|x [|y pre]]; simplify_eq/=. auto.
  - destruct pre as [|x [|y pre]]; simplify_eq/=; eauto.
Qed.

Lemma loop_trace_step (env : PongEnv.t Gym) (a2c : Agent)
    (tr pre post : list (event Gym)) (e : PongEnv.t Gym) (action : nat) :
  loop_trace env a2c tr → tr = pre ++ EvStep e action :: post →
  PongEnv.terminated e = false ∧
  (∃ e0 pre', pre = pre' ++ [EvRender e0] ∧ e = rendered e0) ∧
  (∃ agent obs, PongEnv.state e = Ok obs ∧
                action = (select_action agent obs).1) ∧
  (PongEnv.terminated (PongEnv.step e action) = true → post = []).
Proof.
  intros Htr. revert pre.
  induction Htr as [| |env a2c obs act a2c' tr Hterm Hobs Hact Htr IH];
    intros pre Heq.
  - by destruct pre.
  - destruct pre as [|x [|y pre]]; simplify_eq/=.
  - destruct pre as [|x [|y pre]]; simplify_eq/=.
    + split; [done|]. split; [by exists env, []|].
      split; [exists a2c, obs; by rewrite Hact|].
      eauto using loop_trace_terminated.
    + destruct (IH pre eq_refl) as (? & (e0 & pre' & -> & ->) & ? & ?).
      split; [done|]. split; [|done].
      by exists e0, (EvRender env :: EvStep (rendered env) act :: pre').
Qed.

Lemma while_loop_runs (fuel : nat) (env : PongEnv.t Gym) (a2c : Agent) :
  match (while_loop fuel env a2c).2 with
  | Finished env' a2c' =>
      iterations env a2c (while_loop fuel env a2c).1 env' a2c' ∧
      PongEnv.terminated env' = true
  | OutOfFuel env' a2c' =>
      iterations env a2c (while_loop fuel env a2c).1 env' a2c' ∧
      length (while_loop fuel env a2c).1 = (2 * fuel)%nat
  | Raised e =>
      ∃ tr' env' a2c',
        (while_loop fuel env a2c).1 = tr' ++ [EvRender env'] ∧
        iterations env a2c tr' env' a2c' ∧
        PongEnv.terminated env' = false ∧
        PongEnv.state (rendered env') = Raise e
  end.
Proof.
  revert env a2c. induction fuel as [|fuel IH]; intros env a2c.
  { split; [constructor|done]. }
  cbn [while_loop].
  destruct (PongEnv.terminated env) eqn:Hterm.
  { split; [constructor|done]. }
  destruct (PongEnv.state (rendered env)) as [obs|e] eqn:Hstate.
  - destruct (select_action a2c obs) as [action a2c'] eqn:Hact.
    specialize (IH (PongEnv.step (rendered env) action) a2c').
    destruct (while_loop fuel _ a2c') as [tr [env' a2c''|e|env' a2c'']];
      cbn [fst snd] in *.
    + destruct IH as [Hit Hfin]. split; [by econstructor|done].
    + destruct IH as (tr' & env' & a2c'' & -> & Hit & Hfin & Hraise).
      exists (EvRender env :: EvStep (rendered env) action :: tr'), env', a2c''.
      split; [done|]. split; [by econstructor|done].
    + destruct IH as [Hit Hlen]. split; [by econstructor|].
      cbn [length]. lia.
  - exists [], env, a2c. split; [done|]. split; [constructor|done].
Qed.

(** C5: the cell first resets the environment and then makes whole
    iterations from the environment the reset leaves, one after the other:
    each renders, reads [env.state], lets the agent as it then is select the
    action, and steps with it, and each is made only while [env.terminated]
    is false.  It goes on until [env.terminated] is true (when it ends by
    itself), or [env.state] raises right after a rendering, or the bound on
    the iterations is used up.  So every rendering and every step happens
    while [env.terminated] is false, a step follows its rendering, and once
    a step (or the reset) leaves [env.terminated] true, no call follows. *)
Theorem play_loop_runs (fuel : nat) (env : PongEnv.t Gym) (a2c : Agent) :
  ∃ tr,
    (play fuel env a2c).1 = EvReset :: tr ∧
    match (play fuel env a2c).2 with
    | Finished env' a2c' =>
        iterations (PongEnv.reset env) a2c tr env' a2c' ∧
        PongEnv.terminated env' = true
    | OutOfFuel env' a2c' =>
        iterations (PongEnv.reset env) a2c tr env' a2c' ∧
        length tr = (2 * fuel)%nat
    | Raised e =>
        ∃ tr' env' a2c',
          tr = tr' ++ [EvRender env'] ∧
          iterations (PongEnv.reset env) a2c tr' env' a2c' ∧
          PongEnv.terminated env' = false ∧
          PongEnv.state (rendered env') = Raise e
    end ∧
    (EvReset ∉ tr) ∧
    (PongEnv.terminated (PongEnv.reset env) = true → tr = []) ∧
    (∀ pre e post, tr = pre ++ EvRender e :: post →
       PongEnv.terminated e = false ∧
       (post = [] ∨
        ∃ action post', post = EvStep (rendered e) action :: post')) ∧
    (∀ pre e action post, tr = pre ++ EvStep e action :: post →
       PongEnv.terminated e = false ∧
       (∃ e0 pre', pre = pre' ++ [EvRender e0] ∧ e = rendered e0) ∧
       (PongEnv.terminated (PongEnv.step e action) = true → post = [])).
Proof.
  pose proof (while_loop_trace fuel (PongEnv.reset env) a2c) as Htr.
  pose proof (while_loop_runs fuel (PongEnv.reset env) a2c) as Hruns.
  unfold play. destruct (while_loop fuel (PongEnv.reset env) a2c) as [tr fin].
  exists tr. cbn [fst snd] in *. split; [done|]. split; [exact Hruns|].
  split; [by eapply loop_trace_no_reset|].
  split; [by eapply loop_trace_terminated|].
  split; [intros; by eapply loop_trace_render|].
  intros pre e action post Heq.
  destruct (loop_trace_step _ _ _ _ _ _ _ Htr Heq) as (? & ? & _ & ?).
  done.
Qed.

End PlayLoopFacts.

Lemma toy_select (ag : unit) (obs : ndarray) :
  select_action ag obs = (0%nat, ag).
Proof. reflexivity. Qed.

(** One iteration of the loop on the toy environment. *)
Lemma toy_iteration (fuel : nat) (e : PongEnv.t nat) (ag : unit) :
  PongEnv._terminated e = false → PongEnv._state e = sample_frame →
  while_loop (S fuel) e ag
  = (EvRender e :: EvStep (rendered e) 0%nat
       :: (while_loop fuel (PongEnv.step (rendered e) 0%nat) tt).1,
     (while_loop fuel (PongEnv.step (rendered e) 0%nat) tt).2).
Proof.
  intros Hterm Hscreen. cbn [while_loop]. unfold PongEnv.terminated.
  rewrite Hterm.
  pose proof sample_frame_raw as (Hsh & _ & Hwf & _).
  rewrite (state_atari (rendered e));
    [|by rewrite <- Hscreen in Hwf|by rewrite <- Hscreen in Hsh].
  rewrite toy_select. destruct ag.
  by destruct (while_loop fuel _ _).
Qed.

(** On the toy environment the loop makes three render and step pairs and
    ends by itself. *)
Example play_toy :
  let '(tr, fin) := play 5 (PongEnv.__init__ tt).1 tt in
  summary <$> tr
  = [("reset", 0); ("render", 0); ("step", 0); ("render", 1); ("step", 1);
     ("render", 2); ("step", 2)]%nat ∧
  match fin with
  | Finished self _ => PongEnv.env self = 3%nat
  | _ => False
  end.
Proof.
  unfold play.
  rewrite toy_iteration by reflexivity.
  rewrite toy_iteration by reflexivity.
  rewrite toy_iteration by reflexivity.
  cbn [while_loop fst snd]. unfold PongEnv.terminated.
  change (PongEnv._terminated _) with true.
  cbn [fst snd fmap list_fmap summary]. split; reflexivity.
Qed.

(** ** The policy *)

(** C3: the policy names its outputs [action_prob], [value] and [rnn_state]
    and has one initial recurrent state, sixteen zeros.  The model
    [create_model] builds has three outputs, in that order: a dense layer of
    [env.n_actions] units with a softmax activation, a dense layer of one
    unit without activation, both reading the same features, and the final
    state of a GRU of 16 units whose initial state is the model's second
    input, of shape (16,). *)
Theorem policy_outputs {Gym} (env : PongEnv.t Gym) :
  output_names PongPolicy.__init__ = ["action_prob"; "value"; "rnn_state"] ∧
  (∃ zeros, rnn_initial_states PongPolicy.__init__ = [zeros] ∧
            shape zeros = [16%nat] ∧ data zeros = replicate 16 0) ∧
  ∃ state rnn_state features sequence,
    inputs (PongPolicy.create_model env) = [state; rnn_state] ∧
    state = Input [80; 80]%nat ∧ rnn_state = Input [16%nat] ∧
    outputs (PongPolicy.create_model env)
    = [ Dense (PongEnv.n_actions env) (Some softmax) features;
        Dense 1 None features;
        GRU_final_state 16 true true true sequence rnn_state ] ∧
    length (outputs (PongPolicy.create_model env))
    = length (output_names PongPolicy.__init__).
Proof.
  split; [done|]. split.
  { eexists. split; [done|]. done. }
  eexists _, _, _, _. split; [done|]. done.
Qed.

(** ** Frames of any shape *)

Lemma fmap_seq_affine (a b n : nat) :
  (λ k : nat, Z.to_nat (Z.of_nat a + Z.of_nat k * Z.of_nat b)) <$> seq 0 n
  = (λ k, a + b * k)%nat <$> seq 0 n.
Proof. apply list_fmap_ext. intros _ k _. simpl. lia. Qed.

Lemma slice_indices_play_area (H : nat) :
  slice_indices play_area H = Ok (seq 34 (H `min` 194 - 34)).
Proof.
  unfold slice_indices, slice_bounds, slice_count, adjust_bound. simpl.
  f_equal.
  assert (∀ n, (λ k : nat, Z.to_nat (34 + Z.of_nat k * 1)) <$> seq 0 n
               = seq 34 n) as Hseq.
  { intros n. apply list_eq. intros k. rewrite list_lookup_fmap.
    destruct (decide (k < n)%nat).
    - rewrite !lookup_seq_lt by done. simpl. f_equal. lia.
    - by rewrite !lookup_seq_ge by lia. }
  destruct (Z.of_nat H <=? 34) eqn:E1; destruct (Z.of_nat H <=? 194) eqn:E2;
    rewrite ?Z.leb_le, ?Z.leb_gt in E1, E2.
  - rewrite Z.ltb_irrefl. simpl.
    replace (H `min` 194 - 34)%nat with 0%nat by lia. done.
  - lia.
  - destruct (34 <? Z.of_nat H) eqn:E3;
      rewrite ?Z.ltb_lt, ?Z.ltb_ge in E3; [|lia].
    rewrite Z.quot_1_r, Hseq. f_equal. lia.
  - change (34 <? 194) with true. cbv beta iota.
    rewrite Z.quot_1_r, Hseq. f_equal. lia.
Qed.

Lemma slice_indices_every_other (n : nat) :
  slice_indices every_other n = Ok ((λ k, 2 * k)%nat <$> seq 0 (n / 2)).
Proof.
  assert (Z.of_nat (n / 2) = Z.of_nat n `div` 2) as Hdiv
    by apply (Nat2Z.inj_div n 2).
  remember (n / 2)%nat as m eqn:Hm. clear Hm.
  unfold slice_indices, slice_bounds, slice_count, adjust_bound. simpl.
  f_equal.
  pose proof (Z.div_mod (Z.of_nat n) 2 ltac:(lia)) as Hdm.
  pose proof (Z.mod_pos_bound (Z.of_nat n) 2 ltac:(lia)) as Hmod.
  destruct (Z.of_nat n <=? 0) eqn:E1; rewrite ?Z.leb_le, ?Z.leb_gt in E1.
  { assert (n = 0%nat) as -> by lia.
    assert (m = 0%nat) as ->
      by (change (Z.of_nat 0 `div` 2) with 0 in Hdiv; lia).
    done. }
  destruct (-1 + Z.of_nat n <? 0) eqn:E2;
    rewrite ?Z.ltb_lt, ?Z.ltb_ge in E2; [lia|].
  destruct (0 <? -1 + Z.of_nat n) eqn:E3;
    rewrite ?Z.ltb_lt, ?Z.ltb_ge in E3.
  - rewrite Z.quot_div_nonneg by lia.
    pose proof (Z.div_mod (-1 + Z.of_nat n - 0 - 1) 2 ltac:(lia)) as Hdm'.
    pose proof (Z.mod_pos_bound (-1 + Z.of_nat n - 0 - 1) 2 ltac:(lia)).
    replace (Z.to_nat ((-1 + Z.of_nat n - 0 - 1) `div` 2 + 1))
      with m by lia.
    apply list_fmap_ext. intros _ k _. lia.
  - replace m with 0%nat by lia. done.
Qed.

Lemma mapM_total {A B} (f : A → result B) (l : list A) :
  Forall (λ x, ∃ y, f x = Ok y) l → ∃ ys, mapM f l = Ok ys.
Proof.
  induction 1 as [|x l [y Hy] _ [ys IH]]; [by exists []|].
  exists (y :: ys).
  change (mapM f (x :: l))
    with (f x ≫= λ y, mapM f l ≫= λ k, mret (y :: k)).
  by rewrite Hy, IH.
Qed.

(** With at most as many slices as the array has axes, none of them of step
    zero, indexing returns: the reads of [getitem_data] never raise,
    whatever the elements are. *)
Lemma getitem_data_total (key : list slice) (sh : list nat) (d : list Z) :
  (length key ≤ length sh)%nat →
  Forall (λ s, ∀ n, ∃ idx, slice_indices s n = Ok idx) key →
  ∃ d', getitem_data key sh d = Ok d'.
Proof.
  revert sh d. induction key as [|s key IH]; intros sh d Hlen Hkey.
  { exists d. by destruct sh. }
  apply Forall_cons in Hkey as [Hs Hkey].
  destruct sh as [|n sh']; simpl in Hlen; [lia|].
  destruct (Hs n) as [idx Hidx]. cbn [getitem_data]. rewrite Hidx.
  cbn [mbind result_bind]. unfold blocks.
  rewrite select_blocks by eauto using slice_indices_bounded.
  cbn [mbind result_bind].
  destruct (mapM_total (getitem_data key sh')
              ((λ i, block_at (size_of sh') i d) <$> idx)) as [ys Hys].
  { apply Forall_forall. intros p _. apply IH; [lia|done]. }
  rewrite Hys. by eexists.
Qed.

Lemma sum_axis_total (axis : nat) (sh : list nat) (d : list Z) :
  (axis < length sh)%nat → ∃ d', sum_axis axis sh d = Ok d'.
Proof.
  revert sh d. induction axis as [|axis IH]; intros [|n sh'] d Hlen;
    simpl in Hlen; try lia.
  { by eexists. }
  cbn [sum_axis]. rewrite decide_True by lia.
  destruct (mapM_total (sum_axis axis sh') (blocks n sh' d)) as [ys Hys].
  { apply Forall_forall. intros p _. apply IH. lia. }
  rewrite Hys. by eexists.
Qed.

Lemma resolves_play_area (n : nat) :
  ∃ idx, slice_indices play_area n = Ok idx.
Proof. eexists. apply slice_indices_play_area. Qed.

Lemma resolves_full_slice (n : nat) :
  ∃ idx, slice_indices full_slice n = Ok idx.
Proof. eexists. apply slice_indices_full. Qed.

Lemma resolves_every_other (n : nat) :
  ∃ idx, slice_indices every_other n = Ok idx.
Proof. eexists. apply slice_indices_every_other. Qed.

Lemma cropped_shape (H W C : nat) (rest : list nat) :
  getitem_shape [play_area; full_slice; full_slice] (H :: W :: C :: rest)
  = Ok ((H `min` 194 - 34)%nat :: W :: C :: rest).
Proof.
  cbn [getitem_shape].
  rewrite slice_indices_play_area, !slice_indices_full.
  cbn [mbind result_bind]. by rewrite !length_seq.
Qed.

Lemma reduced_shape (n W : nat) (rest : list nat) :
  getitem_shape [every_other; every_other] (n :: W :: rest)
  = Ok ((n / 2)%nat :: (W / 2)%nat :: rest).
Proof.
  cbn [getitem_shape]. rewrite !slice_indices_every_other.
  cbn [mbind result_bind]. by rewrite !length_fmap, !length_seq.
Qed.

(** What [state] does on an array of three or more dimensions. *)
Lemma state_many_dims {Gym} (self : PongEnv.t Gym) (H W C : nat)
    (rest : list nat) :
  shape (PongEnv._state self) = H :: W :: C :: rest →
  ∃ bw, PongEnv.state self = Ok bw ∧
        shape bw = ((H `min` 194 - 34) / 2)%nat :: (W / 2)%nat :: rest ∧
        dtype_of bw = float64.
Proof.
  intros Hsh. unfold PongEnv.state, np_array, getitem. rewrite Hsh.
  rewrite cropped_shape. cbn [mbind result_bind].
  destruct (getitem_data_total [play_area; full_slice; full_slice]
              (H :: W :: C :: rest) (data (PongEnv._state self)))
    as [d1 ->]; [simpl; lia| |].
  { repeat constructor; auto using resolves_play_area, resolves_full_slice. }
  cbn [mbind result_bind shape data]. rewrite reduced_shape.
  cbn [mbind result_bind].
  destruct (getitem_data_total [every_other; every_other]
              ((H `min` 194 - 34)%nat :: W :: C :: rest) d1)
    as [d2 ->]; [simpl; lia| |].
  { repeat constructor; auto using resolves_every_other. }
  cbn [mbind result_bind]. unfold np_sum. cbn [shape data dtype_of].
  destruct (sum_axis_total 2
              (((H `min` 194 - 34) / 2)%nat :: (W / 2)%nat :: C :: rest) d2)
    as [d3 ->]; [simpl; lia|].
  cbn [mbind result_bind shape]. unfold setitem_mask.
  cbn [shape ne_scalar np_zeros]. rewrite decide_True by done.
  eexists. split; [done|]. done.
Qed.

(** What [state] does on an array of fewer than three dimensions. *)
Lemma state_few_dims {Gym} (self : PongEnv.t Gym) :
  (ndim (PongEnv._state self) < 3)%nat →
  PongEnv.state self = Raise IndexError.
Proof.
  unfold ndim, PongEnv.state, np_array, getitem.
  destruct (shape (PongEnv._state self)) as [|H [|W [|C rest]]];
    simpl length; intros Hlen; try lia; cbn [getitem_shape];
    rewrite ?slice_indices_play_area, ?slice_indices_full; done.
Qed.

(** X1: [state] returns exactly when the array in [_state] has at least
    three dimensions.  With fewer, the index [34:194, :, :] has too many
    entries and [state] raises [IndexError]; it never raises anything
    else. *)
Theorem state_raises_below_three_dims {Gym} (self : PongEnv.t Gym) :
  ((∃ bw, PongEnv.state self = Ok bw)
   ↔ (3 ≤ ndim (PongEnv._state self))%nat) ∧
  (PongEnv.state self = Raise IndexError
   ↔ (ndim (PongEnv._state self) < 3)%nat) ∧
  PongEnv.state self ≠ Raise AxisError ∧
  PongEnv.state self ≠ Raise ValueError.
Proof.
  destruct (decide (ndim (PongEnv._state self) < 3)%nat) as [Hlt|Hge].
  - rewrite (state_few_dims self Hlt).
    split; [split; [by intros [? ?]|lia]|]. done.
  - unfold ndim in *.
    destruct (shape (PongEnv._state self)) as [|H [|W [|C rest]]] eqn:Hsh;
      simpl in Hge; try lia.
    destruct (state_many_dims self H W C rest Hsh) as (bw & -> & _).
    split; [split; [simpl; lia|by eexists]|].
    split; [split; [done|simpl; lia]|]. done.
Qed.

(** X2: on an array of shape [(H, W, C, ...)], whatever its elements,
    [state] returns an array of shape [((min H 194 - 34) / 2, W / 2, ...)],
    with truncated subtraction and division: a frame of at most 34 rows
    gives no rows, and an odd number of rows or columns loses the last
    one. *)
Theorem state_shape_any_frame {Gym} (self : PongEnv.t Gym) (H W C : nat)
    (rest : list nat) :
  shape (PongEnv._state self) = H :: W :: C :: rest →
  ∃ bw, PongEnv.state self = Ok bw ∧
        shape bw = ((H `min` 194 - 34) / 2)%nat :: (W / 2)%nat :: rest.
Proof.
  intros Hsh.
  destruct (state_many_dims self H W C rest Hsh) as (bw & ? & ? & _).
  by exists bw.
Qed.

Lemma half_bound (n i : nat) : (i < n / 2)%nat → (2 * i + 2 ≤ n)%nat.
Proof.
  intros Hi. pose proof (Nat.div_mod_eq n 2).
  pose proof (Nat.mod_upper_bound n 2). lia.
Qed.

Lemma Forall_block_at (P : Z → Prop) (c i : nat) (d : list Z) :
  Forall P d → Forall P (block_at c i d).
Proof. intros Hd. unfold block_at. by apply Forall_take, Forall_drop. Qed.

(** X3: on a well-formed array of shape [(H, W, C)] whose elements are
    integers or booleans within the range of its element type, element
    [(i, j)] of the result is computed from the [C] channels of pixel
    [(34 + 2 i, 2 j)] alone: 0 when their sum, in the element type of the
    sum, is 233 and 1 otherwise.  The pixel lies at least two positions
    before the end of the play area and of the row.  Arrays of floating
    point numbers are left out: their sums are rounded. *)
Theorem state_element_any_frame {Gym} (self : PongEnv.t Gym) (H W C i j : nat) :
  let a := PongEnv._state self in
  well_formed a → well_typed a → dtype_of a ≠ float64 →
  shape a = [H; W; C] →
  (i < (H `min` 194 - 34) / 2)%nat → (j < W / 2)%nat →
  ∃ bw px,
    PongEnv.state self = Ok bw ∧
    (34 + 2 * i + 2 ≤ H `min` 194)%nat ∧ (2 * j + 2 ≤ W)%nat ∧
    length px = C ∧ Forall (in_range (dtype_of a)) px ∧
    (∀ k, (k < C)%nat → item a [34 + 2 * i; 2 * j; k]%nat = px !! k) ∧
    item bw [i; j]
    = Some (bw_value (sum_wrap (sum_dtype (dtype_of a)) (sumZ px))).
Proof.
  intros a Hwf Hty _ Hsh Hi Hj.
  assert (length (data a) = size_of [H; W; C]) as Hd
    by (unfold well_formed in Hwf; by rewrite Hsh in Hwf).
  pose proof (half_bound _ _ Hi) as Hi'. pose proof (half_bound _ _ Hj) as Hj'.
  set (I0 := seq 34 (H `min` 194 - 34)).
  set (I1 := (λ k, 2 * k)%nat <$> seq 0 ((H `min` 194 - 34) / 2)).
  set (J1 := (λ k, 2 * k)%nat <$> seq 0 (W / 2)).
  pose proof (state_rank3 self H W C I0 I1 J1 Hwf Hsh) as Hst.
  rewrite Hst; cycle 1.
  { apply slice_indices_play_area. }
  { unfold I0. rewrite length_seq. apply slice_indices_every_other. }
  { apply slice_indices_every_other. }
  eexists _, (pixel W C (data a) (34 + 2 * i) (2 * j)).
  split; [done|]. split; [lia|]. split; [lia|]. split.
  { apply (length_pixel H); [done|lia|lia]. }
  split.
  { unfold pixel. by do 2 apply Forall_block_at. }
  split.
  { intros k Hk. apply (item_pixel a H W C); [done|lia|lia|done]. }
  assert (I1 !! i = Some (2 * i)%nat) as HI1.
  { unfold I1. by rewrite list_lookup_fmap, lookup_seq_lt. }
  assert (((λ i, I0 !!! i) <$> I1) !! i = Some (34 + 2 * i)%nat) as Hrow.
  { rewrite list_lookup_fmap, HI1. simpl. f_equal.
    apply list_lookup_total_correct. unfold I0. apply lookup_seq_lt. lia. }
  assert (J1 !! j = Some (2 * j)%nat) as Hcol.
  { unfold J1. by rewrite list_lookup_fmap, lookup_seq_lt. }
  replace (length I1) with (length ((λ i, I0 !!! i) <$> I1))
    by apply length_fmap.
  by rewrite (item_table _ _ _ _ i j _ _ Hrow Hcol).
Qed.

(** ** What the observation depends on *)

Lemma table_ext_in {A} (F G : nat → nat → A) (rows cols : list nat) :
  (∀ r c, r ∈ rows → c ∈ cols → F r c = G r c) →
  table F rows cols = table G rows cols.
Proof.
  intros HFG. unfold table. f_equal.
  apply list_fmap_ext. intros i r Hr. apply list_fmap_ext. intros j c Hc.
  eauto using list_elem_of_lookup_2.
Qed.

Lemma Forall_table_in {A} (P : A → Prop) (F : nat → nat → A)
    (rows cols : list nat) :
  (∀ r c, r ∈ rows → c ∈ cols → P (F r c)) → Forall P (table F rows cols).
Proof.
  intros HP. unfold table.
  apply Forall_join, Forall_fmap, Forall_forall. intros r Hr.
  apply Forall_fmap, Forall_forall. intros c Hc. by apply HP.
Qed.

Lemma elem_of_rows80 (r : nat) :
  r ∈ rows80 → ∃ i, (i < 80)%nat ∧ r = (34 + 2 * i)%nat.
Proof.
  unfold rows80. intros (i & -> & Hi%elem_of_seq)%list_elem_of_fmap.
  exists i. split; [lia|done].
Qed.

Lemma elem_of_cols80 (c : nat) :
  c ∈ cols80 → ∃ j, (j < 80)%nat ∧ c = (2 * j)%nat.
Proof.
  unfold cols80. intros (j & -> & Hj%elem_of_seq)%list_elem_of_fmap.
  exists j. split; [lia|done].
Qed.

(** On a raw frame the sum [state] compares with 233 is the sum of the three
    channels, without wrap-around. *)
Lemma atari_channel_sum (a : ndarray) (i j : nat) :
  raw_frame a → (i < 80)%nat → (j < 80)%nat →
  sum_wrap (sum_dtype (dtype_of a))
    (sumZ (pixel 160 3 (data a) (34 + 2 * i) (2 * j)))
  = channel_sum a (34 + 2 * i) (2 * j) ∧
  0 ≤ channel_sum a (34 + 2 * i) (2 * j) ≤ 765.
Proof.
  intros Hraw Hi Hj.
  destruct (atari_pixel a i j Hraw Hi Hj)
    as (red & green & blue & H0 & H1 & H2 & R0 & R1 & R2 & Hpx).
  destruct Hraw as (_ & Ht & _).
  unfold channel_sum. rewrite H0, H1, H2, Hpx, Ht. cbn [default].
  rewrite sum_wrap_pixel by done. unfold id. lia.
Qed.

Lemma state_atari_ext {Gym} (s1 s2 : PongEnv.t Gym) :
  raw_frame (PongEnv._state s1) → raw_frame (PongEnv._state s2) →
  (∀ i j, (i < 80)%nat → (j < 80)%nat →
     bw_value (channel_sum (PongEnv._state s1) (34 + 2 * i) (2 * j))
     = bw_value (channel_sum (PongEnv._state s2) (34 + 2 * i) (2 * j))) →
  PongEnv.state s1 = PongEnv.state s2.
Proof.
  intros Hr1 Hr2 Heq.
  pose proof Hr1 as (Hsh1 & _ & Hwf1 & _).
  pose proof Hr2 as (Hsh2 & _ & Hwf2 & _).
  rewrite (state_atari s1 Hwf1 Hsh1), (state_atari s2 Hwf2 Hsh2).
  do 2 f_equal. apply table_ext_in.
  intros r c (i & Hi & ->)%elem_of_rows80 (j & Hj & ->)%elem_of_cols80.
  destruct (atari_channel_sum _ i j Hr1 Hi Hj) as [-> _].
  destruct (atari_channel_sum _ i j Hr2 Hi Hj) as [-> _].
  by apply Heq.
Qed.

(** X4: [state] sees colours only through the test "the channels sum to
    233": two raw frames whose kept pixels pass the test at the same
    positions give the same result. *)
Theorem state_sees_only_the_mask {Gym} (s1 s2 : PongEnv.t Gym) :
  raw_frame (PongEnv._state s1) → raw_frame (PongEnv._state s2) →
  (∀ i j, (i < 80)%nat → (j < 80)%nat →
     channel_sum (PongEnv._state s1) (34 + 2 * i) (2 * j) = 233
     ↔ channel_sum (PongEnv._state s2) (34 + 2 * i) (2 * j) = 233) →
  PongEnv.state s1 = PongEnv.state s2.
Proof.
  intros Hr1 Hr2 Heq. apply state_atari_ext; [done..|].
  intros i j Hi Hj. specialize (Heq i j Hi Hj).
  unfold bw_value. repeat case_decide; tauto.
Qed.

(** X5: [state] reads nothing but the even rows 34 to 192 and the even
    columns: two raw frames that agree there give the same result, whatever
    they show in the 34 rows above the play area, in the rows from 194 on,
    and in the odd rows and columns. *)
Theorem state_ignores_other_pixels {Gym} (s1 s2 : PongEnv.t Gym) :
  raw_frame (PongEnv._state s1) → raw_frame (PongEnv._state s2) →
  (∀ r c k, (34 ≤ r < 194)%nat → (c < 160)%nat →
     (r `mod` 2 = 0)%nat → (c `mod` 2 = 0)%nat → (k < 3)%nat →
     item (PongEnv._state s1) [r; c; k] = item (PongEnv._state s2) [r; c; k]) →
  PongEnv.state s1 = PongEnv.state s2.
Proof.
  intros Hr1 Hr2 Heq. apply state_atari_ext; [done..|].
  intros i j Hi Hj. unfold channel_sum.
  assert ((34 + 2 * i) `mod` 2 = 0)%nat as Hrow.
  { replace (34 + 2 * i)%nat with ((17 + i) * 2)%nat by lia.
    apply Nat.Div0.mod_mul. }
  assert ((2 * j) `mod` 2 = 0)%nat as Hcol.
  { rewrite Nat.mul_comm. apply Nat.Div0.mod_mul. }
  by rewrite !(Heq (34 + 2 * i)%nat (2 * j)%nat) by (done || lia).
Qed.

(** X10: on a raw frame every value of the intermediate array [grayscale]
    lies between 0 and 765, so the sum of the three bytes, accumulated in 64
    bits, is the exact sum that is compared with 233. *)
Theorem grayscale_in_range {Gym} (self : PongEnv.t Gym) :
  raw_frame (PongEnv._state self) →
  ∃ cropped reduced grayscale,
    getitem [play_area; full_slice; full_slice]
      (np_array (PongEnv._state self)) = Ok cropped ∧
    getitem [every_other; every_other] cropped = Ok reduced ∧
    np_sum reduced 2 = Ok grayscale ∧
    dtype_of grayscale = uint64 ∧
    Forall (λ v, 0 ≤ v ≤ 765) (data grayscale).
Proof.
  intros Hraw. pose proof Hraw as (Hsh & Ht & Hwf & _).
  pose proof (grayscale_atari self Hwf Hsh) as Hg.
  destruct (cropped_grayscale_stages self _ Hg)
    as (cropped & reduced & ? & ? & ?).
  eexists cropped, reduced, _. do 3 (split; [done|]).
  cbn [dtype_of data]. split; [by rewrite Ht|].
  apply Forall_table_in.
  intros r c (i & Hi & ->)%elem_of_rows80 (j & Hj & ->)%elem_of_cols80.
  destruct (atari_channel_sum _ i j Hraw Hi Hj) as [-> ?]. done.
Qed.

(** X9: the two inputs [create_model] declares have the shapes of what they
    are fed: the first the shape of the array [state] returns on a frame of
    shape (210, 160, 3), the second the shape of the policy's initial
    recurrent state. *)
Theorem policy_inputs_match {Gym Gym'} (self : PongEnv.t Gym)
    (env : PongEnv.t Gym') :
  well_formed (PongEnv._state self) →
  shape (PongEnv._state self) = [210; 160; 3]%nat →
  ∃ bw rnn,
    PongEnv.state self = Ok bw ∧
    rnn_initial_states PongPolicy.__init__ = [rnn] ∧
    inputs (PongPolicy.create_model env)
    = [Input (shape bw); Input (shape rnn)].
Proof.
  intros Hwf Hsh. eexists _, _.
  split; [by apply state_atari|]. split; [done|]. done.
Qed.

(** ** Runs of the play loop *)

Lemma state_returns {Gym} (self : PongEnv.t Gym) :
  (3 ≤ ndim (PongEnv._state self))%nat → ∃ bw, PongEnv.state self = Ok bw.
Proof.
  unfold ndim. intros Hn.
  destruct (shape (PongEnv._state self)) as [|H [|W [|C rest]]] eqn:Hsh;
    simpl in Hn; try lia.
  destruct (state_many_dims self H W C rest Hsh) as (bw & ? & _).
  by exists bw.
Qed.

Section PlayLoopRuns.
Context `{PongEnv.GymEnvironment Gym World} `{A2C Agent}.

Lemma loop_trace_renders (P : ndarray → Prop) (env : PongEnv.t Gym)
    (a2c : Agent) (tr : list (event Gym)) :
  (∀ e action, P (PongEnv._state (PongEnv.step e action))) →
  loop_trace env a2c tr → P (PongEnv._state env) →
  ∀ pre e1 post, tr = pre ++ EvRender e1 :: post → P (PongEnv._state e1).
Proof.
  intros Hstep Htr.
  induction Htr as [| |env a2c obs act a2c' tr Hterm Hobs Hact Htr IH];
    intros Henv pre e1 post Heq.
  - by destruct pre.
  - destruct pre as [|x [|y pre]]; simplify_eq/=. done.
  - destruct pre as [|x [|y pre]]; simplify_eq/=; [done|].
    by eapply IH.
Qed.

(** X6: when the screens [reset] and [step] leave in [_state] always have
    at least three dimensions, [env.state] returns at every place where the
    loop reads it, that is after each rendering, and no run ends because
    [env.state] raised. *)
Theorem play_state_returns (fuel : nat) (env : PongEnv.t Gym) (a2c : Agent) :
  (∀ e, (3 ≤ ndim (PongEnv._state (PongEnv.reset e)))%nat) →
  (∀ e action, (3 ≤ ndim (PongEnv._state (PongEnv.step e action)))%nat) →
  (∀ pre e post,
     (play fuel env a2c).1 = pre ++ EvRender e :: post →
     ∃ obs, PongEnv.state (rendered e) = Ok obs) ∧
  is_raised (play fuel env a2c).2 = false.
Proof.
  intros Hreset Hstep.
  pose proof (while_loop_trace fuel (PongEnv.reset env) a2c) as Htr.
  pose proof (while_loop_runs fuel (PongEnv.reset env) a2c) as Hruns.
  unfold play.
  destruct (while_loop fuel (PongEnv.reset env) a2c) as [tr fin].
  cbn [fst snd] in *.
  assert (∀ pre e post, tr = pre ++ EvRender e :: post →
            ∃ obs, PongEnv.state (rendered e) = Ok obs) as Hall.
  { intros pre e post Heq. apply state_returns.
    exact (loop_trace_renders (λ a, (3 ≤ ndim a)%nat) _ _ _ Hstep Htr
             (Hreset env) _ _ _ Heq). }
  split.
  - intros [|x pre] e post Heq; simplify_eq/=. eauto.
  - destruct fin as [| e |]; [done| |done].
    destruct Hruns as (tr' & env' & a2c' & -> & _ & _ & Hraise).
    destruct (Hall tr' env' [] eq_refl) as [obs Hobs]. congruence.
Qed.

Lemma while_loop_balanced (fuel : nat) (env : PongEnv.t Gym) (a2c : Agent) :
  let '(tr, fin) := while_loop fuel env a2c in
  length (filter is_render tr)
  = (length (filter is_step tr) + if is_raised fin then 1 else 0)%nat ∧
  (is_out_of_fuel fin = true → length (filter is_step tr) = fuel).
Proof.
  revert env a2c. induction fuel as [|fuel IH]; intros env a2c; [done|].
  cbn [while_loop]. destruct (PongEnv.terminated env); [done|].
  destruct (PongEnv.state (rendered env)) as [obs|]; [|done].
  destruct (select_action a2c obs) as [action a2c'].
  specialize (IH (PongEnv.step (rendered env) action) a2c').
  destruct (while_loop fuel _ a2c') as [tr fin].
  rewrite !filter_cons. cbn [is_render is_step].
  repeat case_decide; try done.
  cbn [length]. destruct IH as [IH1 IH2]. split; [lia|]. intros Hf.
  by rewrite IH2.
Qed.

(** X8: after the reset every iteration renders once and steps once: a run
    has as many renderings as steps, and one more when it ends with an
    exception (raised by [env.state] between the two).  A run that is cut
    off has made as many steps as the bound allows, and a run that ends by
    itself leaves [env.terminated] true. *)
Theorem play_balanced (fuel : nat) (env : PongEnv.t Gym) (a2c : Agent) :
  ∃ tr fin,
    play fuel env a2c = (EvReset :: tr, fin) ∧
    length (filter is_render tr)
    = (length (filter is_step tr) + if is_raised fin then 1 else 0)%nat ∧
    (is_out_of_fuel fin = true → length (filter is_step tr) = fuel) ∧
    (∀ e agent, fin = Finished e agent → PongEnv.terminated e = true).
Proof.
  unfold play.
  pose proof (while_loop_balanced fuel (PongEnv.reset env) a2c) as Hb.
  pose proof (λ e agent,
    while_loop_finished fuel (PongEnv.reset env) e a2c agent) as Hf.
  destruct (while_loop fuel (PongEnv.reset env) a2c) as [tr fin].
  exists tr, fin. destruct Hb as [Hb1 Hb2]. cbn [snd] in Hf. done.
Qed.

End PlayLoopRuns.

(** ** Sample screens *)

Lemma frame_of_raw (px : nat → nat → list Z) :
  (∀ r c, length (px r c) = 3%nat ∧ Forall (in_range uint8) (px r c)) →
  raw_frame (frame_of px).
Proof.
  intros Hpx. split; [done|]. split; [done|]. split.
  - unfold well_formed, frame_of. cbn [data shape].
    rewrite (length_join_same 480), length_fmap, length_seq; [done|].
    apply Forall_fmap, Forall_forall. intros r _. cbv [compose].
    rewrite (length_join_same 3), length_fmap, length_seq; [done|].
    apply Forall_fmap, Forall_forall. intros c _. cbv [compose].
    apply Hpx.
  - unfold well_typed, frame_of. cbn [data dtype_of].
    apply Forall_join, Forall_fmap, Forall_forall. intros r _. cbv [compose].
    apply Forall_join, Forall_fmap, Forall_forall. intros c _. cbv [compose].
    apply Hpx.
Qed.

Lemma item_frame_of (px : nat → nat → list Z) (r c k : nat) :
  (∀ r c, length (px r c) = 3%nat) →
  (r < 210)%nat → (c < 160)%nat → (k < 3)%nat →
  item (frame_of px) [r; c; k] = px r c !! k.
Proof.
  intros Hpx Hr Hc Hk.
  rewrite (item_pixel (frame_of px) 210 160 3) by done. f_equal.
  apply (pixel_join px 3 (seq 0 210) (seq 0 160) r c r c);
    [done|(by apply lookup_seq_lt)..].
Qed.

Lemma channel_sum_frame_of (px : nat → nat → list Z) (r c : nat) (x y z : Z) :
  (∀ r c, length (px r c) = 3%nat) →
  (r < 210)%nat → (c < 160)%nat → px r c = [x; y; z] →
  channel_sum (frame_of px) r c = x + y + z.
Proof.
  intros Hpx Hr Hc Heq. unfold channel_sum.
  rewrite !item_frame_of by (done || lia). by rewrite Heq.
Qed.

Lemma length_recoloured_pixel (r c : nat) :
  length (recoloured_pixel r c) = 3%nat.
Proof. unfold recoloured_pixel. by case_bool_decide. Qed.

Lemma recoloured_raw : raw_frame (frame_of recoloured_pixel).
Proof.
  apply frame_of_raw. intros r c. unfold recoloured_pixel.
  case_bool_decide; (split; [done|]); repeat constructor; done.
Qed.

Lemma rescored_raw : raw_frame (frame_of rescored_pixel).
Proof.
  apply frame_of_raw. intros r c. unfold rescored_pixel, sample_pixel.
  repeat case_bool_decide; (split; [done|]); repeat constructor; done.
Qed.

Lemma sample_raw : raw_frame (frame_of sample_pixel).
Proof. apply sample_frame_raw. Qed.

(** ** The properties at sample objects *)

Lemma state_shape_any_frame_witness :
  shape (PongEnv._state (env_showing small_frame)) = [38; 5; 3]%nat ∧
  ∃ bw, PongEnv.state (env_showing small_frame) = Ok bw ∧
        shape bw = [((38 `min` 194 - 34) / 2)%nat; (5 / 2)%nat].
Proof.
  split; [reflexivity|].
  exact (state_shape_any_frame (env_showing small_frame) 38 5 3 []
           eq_refl).
Defined.

Lemma small_frame_typed : well_typed small_frame.
Proof.
  unfold well_typed, small_frame. cbn [data dtype_of].
  apply Forall_fmap, Forall_forall. intros k _. cbv [compose in_range].
  pose proof (Nat.mod_upper_bound k 256). lia.
Qed.

Lemma state_element_any_frame_witness :
  well_formed small_frame ∧ well_typed small_frame ∧
  dtype_of small_frame ≠ float64 ∧ shape small_frame = [38; 5; 3]%nat ∧
  (1 < (38 `min` 194 - 34) / 2)%nat ∧ (1 < 5 / 2)%nat ∧
  ∃ bw px,
    PongEnv.state (env_showing small_frame) = Ok bw ∧
    (34 + 2 * 1 + 2 ≤ 38 `min` 194)%nat ∧ (2 * 1 + 2 ≤ 5)%nat ∧
    length px = 3%nat ∧ Forall (in_range uint8) px ∧
    (∀ k, (k < 3)%nat → item small_frame [34 + 2 * 1; 2 * 1; k]%nat = px !! k) ∧
    item bw [1; 1]%nat
    = Some (bw_value (sum_wrap (sum_dtype uint8) (sumZ px))).
Proof.
  assert (well_formed small_frame) as Hwf by reflexivity.
  assert (dtype_of small_frame ≠ float64) as Hdt by discriminate.
  assert (1 < (38 `min` 194 - 34) / 2)%nat as Hi by (vm_compute; lia).
  assert (1 < 5 / 2)%nat as Hj by (vm_compute; lia).
  split; [exact Hwf|]. split; [exact small_frame_typed|].
  split; [exact Hdt|]. split; [reflexivity|].
  split; [exact Hi|]. split; [exact Hj|].
  exact (state_element_any_frame (env_showing small_frame) 38 5 3 1 1
           Hwf small_frame_typed Hdt eq_refl Hi Hj).
Defined.

Lemma play_state_returns_witness :
  (∀ e, (3 ≤ ndim (PongEnv._state (@PongEnv.reset _ _ toy_gym e)))%nat) ∧
  (∀ e action,
     (3 ≤ ndim (PongEnv._state (@PongEnv.step _ _ toy_gym e action)))%nat) ∧
  (∀ pre e post,
     (@play _ _ toy_gym _ toy_a2c 5 (@PongEnv.__init__ _ _ toy_gym tt).1 tt).1
     = pre ++ EvRender e :: post →
     ∃ obs, PongEnv.state (@rendered _ _ toy_gym e) = Ok obs) ∧
  is_raised
    (@play _ _ toy_gym _ toy_a2c 5 (@PongEnv.__init__ _ _ toy_gym tt).1 tt).2
  = false.
Proof.
  assert (∀ e, (3 ≤ ndim (PongEnv._state (@PongEnv.reset _ _ toy_gym e)))%nat)
    as Hreset by (intros e; unfold ndim; cbn; lia).
  assert (∀ e action,
            (3 ≤ ndim (PongEnv._state
                         (@PongEnv.step _ _ toy_gym e action)))%nat)
    as Hstep by (intros e action; unfold ndim; cbn; lia).
  split; [exact Hreset|]. split; [exact Hstep|].
  exact (@play_state_returns _ _ toy_gym _ toy_a2c 5
           (@PongEnv.__init__ _ _ toy_gym tt).1 tt Hreset Hstep).
Defined.

Lemma sample_masks_agree (i j : nat) :
  (i < 80)%nat → (j < 80)%nat →
  channel_sum (frame_of sample_pixel) (34 + 2 * i) (2 * j) = 233
  ↔ channel_sum (frame_of recoloured_pixel) (34 + 2 * i) (2 * j) = 233.
Proof.
  intros Hi Hj.
  destruct (decide (100 ≤ 34 + 2 * i < 104 ∧ 80 ≤ 2 * j < 82)%nat) as [Hb|Hb].
  - rewrite (channel_sum_frame_of sample_pixel _ _ 236 236 236);
      [|apply length_sample_pixel|lia|lia
       |unfold sample_pixel; by rewrite bool_decide_eq_true_2].
    rewrite (channel_sum_frame_of recoloured_pixel _ _ 255 255 255);
      [done|apply length_recoloured_pixel|lia|lia
       |unfold recoloured_pixel; by rewrite bool_decide_eq_true_2].
  - rewrite (channel_sum_frame_of sample_pixel _ _ 144 72 17);
      [|apply length_sample_pixel|lia|lia
       |unfold sample_pixel; by rewrite bool_decide_eq_false_2].
    rewrite (channel_sum_frame_of recoloured_pixel _ _ 233 0 0);
      [done|apply length_recoloured_pixel|lia|lia
       |unfold recoloured_pixel; by rewrite bool_decide_eq_false_2].
Qed.

Lemma state_sees_only_the_mask_witness :
  raw_frame (frame_of sample_pixel) ∧ raw_frame (frame_of recoloured_pixel) ∧
  frame_of sample_pixel ≠ frame_of recoloured_pixel ∧
  PongEnv.state (env_showing (frame_of sample_pixel))
  = PongEnv.state (env_showing (frame_of recoloured_pixel)).
Proof.
  split; [exact sample_raw|]. split; [exact recoloured_raw|]. split.
  - intros Heq. apply (f_equal (λ a, item a [0; 0; 0]%nat)) in Heq.
    rewrite !item_frame_of in Heq
      by (done || lia || apply length_sample_pixel
          || apply length_recoloured_pixel).
    discriminate Heq.
  - exact (state_sees_only_the_mask (env_showing (frame_of sample_pixel))
             (env_showing (frame_of recoloured_pixel))
             sample_raw recoloured_raw sample_masks_agree).
Defined.

Lemma length_rescored_pixel (r c : nat) : length (rescored_pixel r c) = 3%nat.
Proof.
  unfold rescored_pixel. case_bool_decide; [done|apply length_sample_pixel].
Qed.

Lemma sample_play_areas_agree (r c k : nat) :
  (34 ≤ r < 194)%nat → (c < 160)%nat →
  (r `mod` 2 = 0)%nat → (c `mod` 2 = 0)%nat → (k < 3)%nat →
  item (frame_of sample_pixel) [r; c; k]
  = item (frame_of rescored_pixel) [r; c; k].
Proof.
  intros Hr Hc _ _ Hk.
  rewrite !item_frame_of
    by (done || lia || apply length_sample_pixel
        || apply length_rescored_pixel).
  unfold rescored_pixel. by rewrite bool_decide_eq_false_2 by lia.
Qed.

Lemma state_ignores_other_pixels_witness :
  raw_frame (frame_of sample_pixel) ∧ raw_frame (frame_of rescored_pixel) ∧
  frame_of sample_pixel ≠ frame_of rescored_pixel ∧
  PongEnv.state (env_showing (frame_of sample_pixel))
  = PongEnv.state (env_showing (frame_of rescored_pixel)).
Proof.
  split; [exact sample_raw|]. split; [exact rescored_raw|]. split.
  - intros Heq. apply (f_equal (λ a, item a [0; 0; 0]%nat)) in Heq.
    rewrite !item_frame_of in Heq
      by (done || lia || apply length_sample_pixel
          || apply length_rescored_pixel).
    discriminate Heq.
  - exact (state_ignores_other_pixels (env_showing (frame_of sample_pixel))
             (env_showing (frame_of rescored_pixel))
             sample_raw rescored_raw sample_play_areas_agree).
Defined.

Lemma grayscale_in_range_witness :
  raw_frame (PongEnv._state sample_env) ∧
  ∃ cropped reduced grayscale,
    getitem [play_area; full_slice; full_slice]
      (np_array (PongEnv._state sample_env)) = Ok cropped ∧
    getitem [every_other; every_other] cropped = Ok reduced ∧
    np_sum reduced 2 = Ok grayscale ∧
    dtype_of grayscale = uint64 ∧
    Forall (λ v, 0 ≤ v ≤ 765) (data grayscale).
Proof.
  split; [exact sample_env_raw|].
  exact (grayscale_in_range sample_env sample_env_raw).
Defined.

Lemma policy_inputs_match_witness :
  well_formed (PongEnv._state sample_env) ∧
  shape (PongEnv._state sample_env) = [210; 160; 3]%nat ∧
  ∃ bw rnn,
    PongEnv.state sample_env = Ok bw ∧
    rnn_initial_states PongPolicy.__init__ = [rnn] ∧
    inputs (PongPolicy.create_model sample_env)
    = [Input (shape bw); Input (shape rnn)].
Proof.
  pose proof sample_env_raw as (Hsh & _ & Hwf & _).
  split; [exact Hwf|]. split; [exact Hsh|].
  exact (policy_inputs_match sample_env sample_env Hwf Hsh).
Defined.

(** ** The declared shape and the observations of the loop *)

(** X11: for a three-dimensional frame, the array [state] returns has the
    shape [_state_shape] that [__init__] declares exactly when the frame has
    at least 194 rows and 160 or 161 columns. *)
Theorem state_shape_declared_iff `{PongEnv.GymEnvironment Gym World}
    (self : PongEnv.t Gym) (w : World) (R W C : nat) :
  shape (PongEnv._state self) = [R; W; C] →
  (∃ bw, PongEnv.state self = Ok bw ∧
         shape bw = PongEnv._state_shape (PongEnv.__init__ w).1)
  ↔ (194 ≤ R ∧ 160 ≤ W ≤ 161)%nat.
Proof.
  intros Hsh.
  destruct (state_many_dims self R W C [] Hsh) as (bw & Hbw & Hs & _).
  assert (PongEnv._state_shape (PongEnv.__init__ w).1 = [80; 80]%nat) as ->.
  { unfold PongEnv.__init__. by destruct (PongEnv.super_init "Pong-v0" w). }
  pose proof (Nat.div_mod_eq (R `min` 194 - 34) 2).
  pose proof (Nat.mod_upper_bound (R `min` 194 - 34) 2).
  pose proof (Nat.div_mod_eq W 2). pose proof (Nat.mod_upper_bound W 2).
  remember ((R `min` 194 - 34) / 2)%nat as q1.
  remember (W / 2)%nat as q2.
  split.
  - intros (bw' & Hbw' & Hs'). rewrite Hbw in Hbw'. injection Hbw' as <-.
    rewrite Hs in Hs'. injection Hs' as Hrows Hcols. lia.
  - intros HHW. exists bw. split; [done|]. rewrite Hs. f_equal; [|f_equal]; lia.
Qed.

Section PlayLoopObservations.
Context `{PongEnv.GymEnvironment Gym World} `{A2C Agent}.

Lemma loop_trace_screens (P : ndarray → Prop) (env : PongEnv.t Gym)
    (a2c : Agent) (tr : list (event Gym)) :
  (∀ e action, P (PongEnv._state (PongEnv.step e action))) →
  loop_trace env a2c tr → P (PongEnv._state env) →
  ∀ pre e action post, tr = pre ++ EvStep e action :: post →
    P (PongEnv._state e).
Proof.
  intros Hstep Htr.
  induction Htr as [| |env a2c obs act a2c' tr Hterm Hobs Hact Htr IH];
    intros Henv pre e1 action post Heq.
  - by destruct pre.
  - destruct pre as [|x [|y pre]]; simplify_eq/=.
  - destruct pre as [|x [|y pre]]; simplify_eq/=; [done|].
    by eapply IH.
Qed.

(** X12: when the screens [reset] and [step] leave in [_state] always have
    shape (210, 160, 3), every action the loop steps with was selected from
    an observation of shape (80, 80) that holds only 0 and 1. *)
Theorem play_observations (fuel : nat) (env : PongEnv.t Gym) (a2c : Agent) :
  (∀ e', well_formed (PongEnv._state (PongEnv.reset e')) ∧
         shape (PongEnv._state (PongEnv.reset e')) = [210; 160; 3]%nat) →
  (∀ e' action',
     well_formed (PongEnv._state (PongEnv.step e' action')) ∧
     shape (PongEnv._state (PongEnv.step e' action')) = [210; 160; 3]%nat) →
  ∀ pre e action post,
    (play fuel env a2c).1 = pre ++ EvStep e action :: post →
    ∃ agent obs,
      PongEnv.state e = Ok obs ∧ action = (select_action agent obs).1 ∧
      shape obs = [80; 80]%nat ∧ Forall (λ v, v = 0 ∨ v = 1) (data obs).
Proof.
  intros Hreset Hstep pre e action post Heq.
  pose proof (while_loop_trace fuel (PongEnv.reset env) a2c) as Htr.
  unfold play in Heq.
  destruct (while_loop fuel (PongEnv.reset env) a2c) as [tr fin].
  cbn [fst] in *. destruct pre as [|x pre]; simplify_eq/=.
  destruct (loop_trace_step _ _ _ _ _ _ _ Htr eq_refl)
    as (_ & _ & (agent & obs & Hobs & Hact) & _).
  exists agent, obs. split; [done|]. split; [done|].
  pose proof (loop_trace_screens
    (λ a, well_formed a ∧ shape a = [210; 160; 3]%nat)
    _ _ _ Hstep Htr (Hreset env) _ _ _ _ eq_refl) as [Hwf Hsh].
  rewrite (state_atari e Hwf Hsh) in Hobs. injection Hobs as <-.
  split; [done|]. cbn [data]. apply Forall_table. intros r c.
  unfold bw_value. case_decide; auto.
Qed.

End PlayLoopObservations.

Lemma state_shape_declared_iff_witness :
  shape (PongEnv._state sample_env) = [210; 160; 3]%nat ∧
  ((∃ bw, PongEnv.state sample_env = Ok bw ∧
          shape bw
          = PongEnv._state_shape (@PongEnv.__init__ _ _ toy_gym tt).1)
   ↔ (194 ≤ 210 ∧ 160 ≤ 160 ≤ 161)%nat).
Proof.
  split; [reflexivity|].
  exact (@state_shape_declared_iff _ _ toy_gym sample_env tt 210 160 3
           eq_refl).
Defined.

Lemma toy_gym_screens :
  (∀ e, well_formed (PongEnv._state (@PongEnv.reset _ _ toy_gym e)) ∧
        shape (PongEnv._state (@PongEnv.reset _ _ toy_gym e))
        = [210; 160; 3]%nat) ∧
  (∀ e action,
     well_formed (PongEnv._state (@PongEnv.step _ _ toy_gym e action)) ∧
     shape (PongEnv._state (@PongEnv.step _ _ toy_gym e action))
     = [210; 160; 3]%nat).
Proof.
  pose proof sample_frame_raw as (Hsh & _ & Hwf & _).
  split; intros; split; assumption.
Qed.

Lemma play_observations_witness :
  (∀ e, well_formed (PongEnv._state (@PongEnv.reset _ _ toy_gym e)) ∧
        shape (PongEnv._state (@PongEnv.reset _ _ toy_gym e))
        = [210; 160; 3]%nat) ∧
  (∀ e action,
     well_formed (PongEnv._state (@PongEnv.step _ _ toy_gym e action)) ∧
     shape (PongEnv._state (@PongEnv.step _ _ toy_gym e action))
     = [210; 160; 3]%nat) ∧
  ∀ pre e action post,
    (@play _ _ toy_gym _ toy_a2c 5 (@PongEnv.__init__ _ _ toy_gym tt).1 tt).1
    = pre ++ EvStep e action :: post →
    ∃ agent obs,
      PongEnv.state e = Ok obs ∧
      action = (@select_action _ toy_a2c agent obs).1 ∧
      shape obs = [80; 80]%nat ∧ Forall (λ v, v = 0 ∨ v = 1) (data obs).
Proof.
  split; [exact (proj1 toy_gym_screens)|].
  split; [exact (proj2 toy_gym_screens)|].
  exact (@play_observations _ _ toy_gym _ toy_a2c 5
           (@PongEnv.__init__ _ _ toy_gym tt).1 tt
           (proj1 toy_gym_screens) (proj2 toy_gym_screens)).
Defined.
